(** * resolve_found_already_linked.py: a shallow embedding

    The script talks to a remote tenant over HTTP, so the embedding threads
    an explicit program state through every function: the cached bearer
    token of the [TokenManager], the state of the remote tenant, the
    chronological trace of requests the script has issued (with the reply
    each one got) and the lines it has printed.

    Response bodies are decoded along the resource schema the script
    relies on: a key the script reads with [obj["k"]] is a mandatory string
    field, a key it reads with [obj.get("k")] is an optional one. *)

From Stdlib Require Import ZArith String Ascii List Lia.
From Stdlib Require OrderedTypeEx.
From stdpp Require Import base option list strings gmap pretty.

Open Scope string_scope.
Open Scope list_scope.
Open Scope Z_scope.

(** ** Data model *)

(** [requests.get] and [requests.delete], the two callables handed to
    [_do_request]. *)
Inductive Method := GET | DELETE.

Record Request := {
  rq_method : Method;
  rq_url : string;
  rq_headers : list (string * string);
  rq_params : option (list (string * string))
}.

(** An element of ["reconciliations"] in the reply to [GET /recon]. *)
Record Recon := {
  recon_id : string;                              (* recon["_id"] *)
  recon_state : string;                           (* recon['state'] *)
  recon_mapping : option string;                  (* r.get("mapping") *)
  recon_started : option string;                  (* r.get("started") *)
  situationSummary : option (gmap string Z)       (* recon.get("situationSummary") *)
}.

(** An element of ["result"] in a page of recon association entries. *)
Record ReconEntry := {
  sourceObjectId : option string;                 (* entry.get("sourceObjectId") *)
  targetObjectId : option string                  (* entry.get("targetObjectId") *)
}.

(** An element of ["result"] in the reply to a [/repo/link] query. *)
Record LinkRecord := {
  link_id : string;                               (* c["_id"] *)
  link_rev : string;                              (* link["_rev"] *)
  firstId : string;                               (* link['firstId'] *)
  secondId : string;                              (* link['secondId'] *)
  linkType : option string                        (* c.get("linkType") *)
}.

(** What [resp.json()] yields.  [Null] is Python's [None]: a JSON [null]
    body, and also what a function returns when it falls off its end. *)
Inductive Body :=
| ReconListing (reconciliations : option (list Recon))
| EntryPage (result : option (list ReconEntry)) (pagedResultsCookie : option string)
| LinkPage (result : option (list LinkRecord))
| Document
| Null.

Record Response := {
  status_code : Z;
  json : option Body          (* None: the body is not JSON, resp.json() raises *)
}.

(** The reply of the token endpoint to the JWT-bearer exchange. *)
Record TokenBody := {
  access_token : option string;                   (* data["access_token"] *)
  expires_in : option Z                           (* data.get('expires_in', '?') *)
}.

Record TokenResponse := {
  tk_status_code : Z;
  tk_json : option TokenBody
}.

(** The exceptions the script can meet.  [SystemExit] derives from
    [BaseException] only, so [except Exception] lets it through. *)
Inductive exn :=
| HTTPError (status : Z)          (* resp.raise_for_status() *)
| RequestException                (* the requests call itself failed *)
| JSONDecodeError                 (* resp.json() *)
| KeyError (key : string)
| IndexError                      (* recons[0] *)
| AttributeError                  (* None.get(...) *)
| SystemExit (code : Z).          (* sys.exit(code) *)

Definition is_Exception (e : exn) : bool :=
  match e with
  | SystemExit _ => false
  | _ => true
  end.

(** One constructor per [print] call of the script; [render] below gives
    the text. *)
Inductive Line :=
| PTokenAcquired (expires : option Z)
| PTokenExpired
| PNoRecon
| PFetchedPage (page n : nat)
| PTenant | PMapping | PMode | PBlank
| PInitToken | PFindingRecon
| PReconId (id : string) | PReconState (st : string)
| PReconStarted (started : option string) | PReconCount (n : Z)
| PNothingToDo
| PFetching | PTotalEntries (n : nat)
| PNoEntries
| PSampleMode (k n : nat)
| PDryRunMode (n : nat)
| PEntry (i n : nat) (source_id target_id : option string)
| PNoLink
| PFoundLink (id first second : string)
| PWouldDelete (id : string)
| PDeleted (id : string)
| PErrorDeleting (id : string) (e : exn)
| PRule | PSummary
| PSummaryTotal (n : nat) | PSummarySampled (n : nat)
| PSummaryDeleted (n : nat) | PSummaryNotFound (n : nat) | PSummaryFailed (n : nat)
| PWasDryRun.

(** ** The deployment: constants and the remote tenant *)

Class Env := {
  TENANT_HOST : string;
  MAPPING_NAME : string;
  SAMPLE_SIZE : Z;
  (** state of the remote tenant (identity store and token service) *)
  World : Type;
  (** one HTTP exchange; [None] when the requests call raises *)
  send : Request -> World -> option Response * World;
  (** the POST of a freshly signed assertion to the token endpoint *)
  post_token : World -> option TokenResponse * World;
  (** iteration order of a two-element Python set of strings: [true] when
      the second inserted string comes out first *)
  set_order : string -> string -> bool;
  (** [str(e)], the message text of an exception *)
  exn_text : exn -> string
}.

Inductive Event `{Env} :=
| Sent (rq : Request) (reply : option Response)
| Refreshed (reply : option TokenResponse).

Record State `{Env} := {
  _token : option string;       (* token_mgr._token *)
  world : World;
  trace : list Event;
  stdout : list Line
}.

Inductive outcome (A : Type) :=
| Return (a : A)
| Raise (e : exn)
| OutOfFuel.
Arguments Return {A} a.
Arguments Raise {A} e.
Arguments OutOfFuel {A}.

Section Model.
Context `{E : Env}.

(** ** State and exception monad *)

Definition M (A : Type) : Type := State -> outcome A * State.

Definition ret {A} (a : A) : M A := fun s => (Return a, s).

Definition bind {A B} (m : M A) (k : A -> M B) : M B :=
  fun s =>
    match m s with
    | (Return a, s') => k a s'
    | (Raise e, s') => (Raise e, s')
    | (OutOfFuel, s') => (OutOfFuel, s')
    end.

Definition raise {A} (e : exn) : M A := fun s => (Raise e, s).

(** [try: m  except Exception as e: h e] *)
Definition try_except {A} (m : M A) (h : exn -> M A) : M A :=
  fun s =>
    match m s with
    | (Raise e, s') => if is_Exception e then h e s' else (Raise e, s')
    | r => r
    end.

(** State updates: a printed line, a new cached token, a completed exchange
    with the tenant. *)
Definition add_line (l : Line) (s : State) : State :=
  {| _token := _token s; world := world s; trace := trace s;
     stdout := stdout s ++ [l] |}.

Definition set_token (t : option string) (s : State) : State :=
  {| _token := t; world := world s; trace := trace s; stdout := stdout s |}.

Definition record (ev : Event) (w : World) (s : State) : State :=
  {| _token := _token s; world := w; trace := trace s ++ [ev]; stdout := stdout s |}.

Definition print (l : Line) : M unit :=
  fun s => (Return tt, add_line l s).

End Model.

Declare Scope py_scope.
Delimit Scope py_scope with py.
Notation "x <- m ;; k" := (bind m (fun x => k))
  (at level 100, m at next level, right associativity) : py_scope.
Notation "m ;;; k" := (bind m (fun _ => k))
  (at level 100, right associativity) : py_scope.

Section Client.
Context `{E : Env}.
Local Open Scope py_scope.

(** ** Constants *)

Definition BASE_URL : string := "https://" +:+ TENANT_HOST +:+ "/openidm".

Definition HEADERS : list (string * string) :=
  [("Accept-API-Version", "resource=1.0"); ("Content-Type", "application/json")].

(** Truth value of a string-or-None. *)
Definition truthy (o : option string) : bool :=
  match o with
  | Some s => negb (String.eqb s EmptyString)
  | None => false
  end.

(** The double-quote character, as a string. *)
Definition dquote : string := String (ascii_of_nat 34) EmptyString.

(** [str(x)] for a string-or-None inside an f-string. *)
Definition py_str (o : option string) : string :=
  match o with
  | Some s => s
  | None => "None"
  end.

(** [resp.raise_for_status()] raises for 4xx and 5xx. *)
Definition is_error_status (code : Z) : bool :=
  (400 <=? code) && (code <? 600).

Definition raise_for_status (code : Z) : M unit :=
  if is_error_status code then raise (HTTPError code) else ret tt.

(** ** TokenManager *)

(** [refresh()]: the assertion (claims, expiry, nonce, signature) is the
    tenant's to judge, so its construction stays inside [post_token]; what
    the script does with the reply is spelled out. *)
Definition refresh : M unit :=
  fun s =>
    let (reply, w) := post_token (world s) in
    let s1 := record (Refreshed reply) w s in
    match reply with
    | None => (Raise RequestException, s1)
    | Some resp =>
        (raise_for_status (tk_status_code resp) ;;;
         match tk_json resp with
         | None => raise JSONDecodeError
         | Some data =>
             match access_token data with
             | None => raise (KeyError "access_token")
             | Some t =>
                 (fun s2 => (Return tt, set_token (Some t) s2)) ;;;
                 print (PTokenAcquired (expires_in data))
             end
         end) s1
    end.

(** The [token] property. *)
Definition token : M string :=
  fun s =>
    if truthy (_token s) then (Return (py_str (_token s)), s)
    else (refresh ;;; (fun s' => (Return (py_str (_token s')), s'))) s.

(** ** API client *)

(** [method(url, headers=headers, params=params)] *)
Definition request (rq : Request) : M Response :=
  fun s =>
    let (reply, w) := send rq (world s) in
    let s1 := record (Sent rq reply) w s in
    match reply with
    | None => (Raise RequestException, s1)
    | Some resp => (Return resp, s1)
    end.

(** [resp.json()] *)
Definition resp_json (resp : Response) : M Body :=
  match json resp with
  | Some b => ret b
  | None => raise JSONDecodeError
  end.

(** [{**HEADERS, "Authorization": ...}], with [If-Match] when [rev] is set. *)
Definition request_headers (tok : string) (rev : option string) : list (string * string) :=
  (HEADERS ++ [("Authorization", "Bearer " +:+ tok)]) ++
  (if truthy rev then [("If-Match", py_str rev)] else []).

(** The body of [for attempt in range(2)], over the attempts still to run.
    Falling off the loop returns [None]. *)
Fixpoint _do_request_loop (attempts : list nat) (method : Method) (path : string)
    (params : option (list (string * string))) (rev : option string) : M Body :=
  match attempts with
  | [] => ret Null
  | attempt :: rest =>
      tok <- token ;;
      resp <- request {| rq_method := method; rq_url := BASE_URL +:+ path;
                         rq_headers := request_headers tok rev;
                         rq_params := params |} ;;
      if (status_code resp =? 401) && (attempt =? 0)%nat then
        print PTokenExpired ;;;
        refresh ;;;
        _do_request_loop rest method path params rev
      else
        raise_for_status (status_code resp) ;;;
        resp_json resp
  end.

Definition _do_request (method : Method) (path : string)
    (params : option (list (string * string))) (rev : option string) : M Body :=
  _do_request_loop (seq 0 2) method path params rev.

Definition api_get (path : string) (params : option (list (string * string))) : M Body :=
  _do_request GET path params None.

Definition api_delete (path : string) (rev : string) : M Body :=
  _do_request DELETE path None (Some rev).

End Client.

Section Script.
Context `{E : Env}.
Local Open Scope py_scope.

(** [for x in l: acc = body x acc], an exception in [body] leaving the loop. *)
Fixpoint for_in {A S : Type} (l : list A) (body : A -> S -> M S) (acc : S) : M S :=
  match l with
  | [] => ret acc
  | x :: l' => acc' <- body x acc ;; for_in l' body acc'
  end.

(** [enumerate(l, start)] *)
Definition enumerate {A : Type} (start : nat) (l : list A) : list (nat * A) :=
  zip (seq start (length l)) l.

(** *** [data.get(key, default)] on a decoded body

    [None] has no [get]; the body of another resource lacks the key, so the
    default is returned. *)

Definition get_reconciliations (data : Body) : M (list Recon) :=
  match data with
  | Null => raise AttributeError
  | ReconListing (Some l) => ret l
  | _ => ret []
  end.

Definition get_result_entries (data : Body) : M (list ReconEntry) :=
  match data with
  | Null => raise AttributeError
  | EntryPage (Some l) _ => ret l
  | _ => ret []
  end.

Definition get_pagedResultsCookie (data : Body) : M (option string) :=
  match data with
  | Null => raise AttributeError
  | EntryPage _ cookie => ret cookie
  | _ => ret None
  end.

Definition get_result_links (data : Body) : M (list LinkRecord) :=
  match data with
  | Null => raise AttributeError
  | LinkPage (Some l) => ret l
  | _ => ret []
  end.

(** ** find_latest_recon *)

(** [r.get("started", default)] with the empty string as default: the sort key. *)
Definition started_key (r : Recon) : string := default EmptyString (recon_started r).

(** [recons.sort(key=..., reverse=True)]: a stable sort, descending by key;
    runs with equal keys keep their original order.  Python compares [str]
    by code point, which on UTF-8 text is the byte-wise lexicographic order
    of [String.leb]. *)
Fixpoint insert_desc (r : Recon) (sorted : list Recon) : list Recon :=
  match sorted with
  | [] => [r]
  | x :: rest =>
      if String.leb (started_key x) (started_key r) then r :: x :: rest
      else x :: insert_desc r rest
  end.

Definition sort_started_desc (recons : list Recon) : list Recon :=
  foldr insert_desc [] recons.

Definition find_latest_recon : M Recon :=
  data <- api_get "/recon" None ;;
  all <- get_reconciliations data ;;
  let recons := filter (fun r => recon_mapping r = Some MAPPING_NAME) all in
  match recons with
  | [] => print PNoRecon ;;; raise (SystemExit 1)
  | _ :: _ =>
      match sort_started_desc recons with
      | latest :: _ => ret latest
      | [] => raise IndexError
      end
  end.

(** ** get_found_already_linked_entries *)

(** Lines 137-142: the query of one page. *)
Definition page_params (cookie : option string) : list (string * string) :=
  [("_queryFilter", "situation eq " +:+ dquote +:+ "FOUND_ALREADY_LINKED" +:+ dquote);
   ("_pageSize", "500")] ++
  (if truthy cookie then [("_pagedResultsCookie", py_str cookie)] else []).

(** The [while True] loop; [fuel] bounds the number of pages requested. *)
Fixpoint fetch_loop (fuel : nat) (recon_id : string) (entries : list ReconEntry)
    (cookie : option string) (page : nat) : M (list ReconEntry) :=
  match fuel with
  | O => fun s => (OutOfFuel, s)
  | S fuel' =>
      data <- api_get ("/recon/assoc/" +:+ recon_id +:+ "/entry")
                      (Some (page_params cookie)) ;;
      batch <- get_result_entries data ;;
      let entries := entries ++ batch in
      let page := S page in
      print (PFetchedPage page (length batch)) ;;;
      cookie <- get_pagedResultsCookie data ;;
      if negb (truthy cookie) || (length batch =? 0)%nat then ret entries
      else fetch_loop fuel' recon_id entries cookie page
  end.

Definition get_found_already_linked_entries (fuel : nat) (recon_id : string)
    : M (list ReconEntry) :=
  fetch_loop fuel recon_id [] None 0%nat.

(** ** find_link *)

(** [set(filter(None, [source_id, target_id]))], in iteration order. *)
Definition search_ids (source_id target_id : option string) : list string :=
  match filter (fun o => truthy o = true) [source_id; target_id] with
  | [Some a] => [a]
  | [Some a; Some b] =>
      if decide (a = b) then [a]
      else if set_order a b then [b; a] else [a; b]
  | _ => []
  end.

(** [{"_queryFilter": f'{field} eq "{search_id}"'}] *)
Definition link_query (field search_id : string) : list (string * string) :=
  [("_queryFilter", field +:+ " eq " +:+ dquote +:+ search_id +:+ dquote)].

(** Lines 165-169: the body of [for field in ...]. *)
Definition query_field (search_id field : string) (candidates : list LinkRecord)
    : M (list LinkRecord) :=
  data <- api_get "/repo/link" (Some (link_query field search_id)) ;;
  found <- get_result_links data ;;
  ret (candidates ++ found).

(** Lines 164-169: the body of [for search_id in search_ids]. *)
Definition query_id (search_id : string) (candidates : list LinkRecord)
    : M (list LinkRecord) :=
  for_in ["firstId"; "secondId"] (query_field search_id) candidates.

(** Deduplicate by [_id], keeping the first record of each. *)
Fixpoint unique_by_id (seen : gset string) (candidates : list LinkRecord)
    : list LinkRecord :=
  match candidates with
  | [] => []
  | c :: rest =>
      if decide (link_id c ∈ seen) then unique_by_id seen rest
      else c :: unique_by_id ({[link_id c]} ∪ seen) rest
  end.

Definition find_link (source_id target_id : option string) : M (list LinkRecord) :=
  candidates <- for_in (search_ids source_id target_id) query_id [] ;;
  let unique := unique_by_id ∅ candidates in
  let matching := filter (fun c => linkType c = Some MAPPING_NAME) unique in
  ret matching.

(** ** main *)

Record Counters := {
  deleted : nat;
  failed : nat;
  not_found : nat
}.

(** Lines 250-264: the body of [for link in links]. *)
Definition handle_link (dry_run : bool) (link : LinkRecord) (c : Counters) : M Counters :=
  let link_id := link_id link in
  let link_rev := link_rev link in
  print (PFoundLink link_id (firstId link) (secondId link)) ;;;
  if dry_run then
    print (PWouldDelete link_id) ;;;
    ret c
  else
    try_except
      (api_delete ("/repo/link/" +:+ link_id) link_rev ;;;
       print (PDeleted link_id) ;;;
       ret {| deleted := S (deleted c); failed := failed c; not_found := not_found c |})
      (fun e =>
       print (PErrorDeleting link_id e) ;;;
       ret {| deleted := deleted c; failed := S (failed c); not_found := not_found c |}).

(** Lines 239-264: the body of [for i, entry in enumerate(to_process, 1)]. *)
Definition handle_entry (dry_run : bool) (total : nat) (ie : nat * ReconEntry)
    (c : Counters) : M Counters :=
  let source_id := sourceObjectId ie.2 in
  let target_id := targetObjectId ie.2 in
  print (PEntry ie.1 total source_id target_id) ;;;
  links <- find_link source_id target_id ;;
  match links with
  | [] =>
      print PNoLink ;;;
      ret {| deleted := deleted c; failed := failed c; not_found := S (not_found c) |}
  | _ :: _ => for_in links (handle_link dry_run) c
  end.

(** Lines 228-235: which entries the loop runs over. *)
Definition select_entries (entries : list ReconEntry) : M (list ReconEntry) :=
  if 0 <? SAMPLE_SIZE then
    let to_process := take (Z.to_nat SAMPLE_SIZE) entries in
    print (PSampleMode (length to_process) (length entries)) ;;;
    ret to_process
  else if SAMPLE_SIZE =? 0 then
    print (PDryRunMode (length entries)) ;;;
    ret entries
  else
    ret entries.

(** Lines 223-264: step 4, from the counters to the end of the loop. *)
Definition find_and_delete (entries : list ReconEntry) : M (list ReconEntry * Counters) :=
  let dry_run := SAMPLE_SIZE =? 0 in
  to_process <- select_entries entries ;;
  print PBlank ;;;
  c <- for_in (enumerate 1 to_process) (handle_entry dry_run (length to_process))
         {| deleted := 0; failed := 0; not_found := 0 |} ;;
  ret (to_process, c).

Definition print_summary (entries to_process : list ReconEntry) (c : Counters) : M unit :=
  print PBlank ;;;
  print PRule ;;;
  print PSummary ;;;
  print PRule ;;;
  print (PSummaryTotal (length entries)) ;;;
  (if 0 <? SAMPLE_SIZE then print (PSummarySampled (length to_process)) else ret tt) ;;;
  print (PSummaryDeleted (deleted c)) ;;;
  print (PSummaryNotFound (not_found c)) ;;;
  print (PSummaryFailed (failed c)) ;;;
  if SAMPLE_SIZE =? 0 then
    print PBlank ;;;
    print PWasDryRun
  else ret tt.

(** [main()]; the service-account key file is taken to load, so
    [TokenManager()] starts with no token cached. *)
Definition main (fuel : nat) : M unit :=
  print PTenant ;;;
  print PMapping ;;;
  print PMode ;;;
  print PBlank ;;;
  print PInitToken ;;;
  (fun s => (Return tt, set_token None s)) ;;;
  print PBlank ;;;
  print PFindingRecon ;;;
  recon <- find_latest_recon ;;
  let recon_id := recon_id recon in
  let fal_count :=
    default 0 (default ∅ (situationSummary recon) !! "FOUND_ALREADY_LINKED") in
  print (PReconId recon_id) ;;;
  print (PReconState (recon_state recon)) ;;;
  print (PReconStarted (recon_started recon)) ;;;
  print (PReconCount fal_count) ;;;
  print PBlank ;;;
  if fal_count =? 0 then
    print PNothingToDo
  else
    print PFetching ;;;
    entries <- get_found_already_linked_entries fuel recon_id ;;
    print (PTotalEntries (length entries)) ;;;
    print PBlank ;;;
    match entries with
    | [] => print PNoEntries
    | _ :: _ =>
        r <- find_and_delete entries ;;
        print_summary entries r.1 r.2
    end.

(** ** The printed text *)

Definition mode : string :=
  if SAMPLE_SIZE =? 0 then "DRY RUN"
  else if 0 <? SAMPLE_SIZE then "SAMPLE (" +:+ pretty SAMPLE_SIZE +:+ ")"
  else "ALL".

Definition rule : string :=
  "============================================================".

Definition render (l : Line) : string :=
  match l with
  | PTokenAcquired expires =>
      "  Token acquired (expires in " +:+
      match expires with Some n => pretty n | None => "?" end +:+ "s)"
  | PTokenExpired => "  Token expired, refreshing..."
  | PNoRecon => "ERROR: No recon found for mapping '" +:+ MAPPING_NAME +:+ "'"
  | PFetchedPage page n =>
      "  Fetched page " +:+ pretty page +:+ ": " +:+ pretty n +:+ " entries"
  | PTenant => "Tenant:  " +:+ TENANT_HOST
  | PMapping => "Mapping: " +:+ MAPPING_NAME
  | PMode => "Mode:    " +:+ mode
  | PBlank => EmptyString
  | PInitToken => "Initializing token manager..."
  | PFindingRecon => "Finding latest recon..."
  | PReconId id => "  Recon ID: " +:+ id
  | PReconState st => "  State:    " +:+ st
  | PReconStarted started => "  Started:  " +:+ py_str started
  | PReconCount n => "  FOUND_ALREADY_LINKED: " +:+ pretty n
  | PNothingToDo => "No FOUND_ALREADY_LINKED items found. Nothing to do."
  | PFetching => "Fetching FOUND_ALREADY_LINKED entries..."
  | PTotalEntries n => "  Total entries: " +:+ pretty n
  | PNoEntries =>
      "No entries found (association data may not exist). Was recon run with persistAssociations=true?"
  | PSampleMode k n =>
      "SAMPLE MODE: processing first " +:+ pretty k +:+ " of " +:+ pretty n +:+ " entries"
  | PDryRunMode n =>
      "DRY RUN MODE: listing all " +:+ pretty n +:+ " entries without deleting"
  | PEntry i n source_id target_id =>
      "[" +:+ pretty i +:+ "/" +:+ pretty n +:+ "] source=" +:+ py_str source_id +:+
      " target=" +:+ py_str target_id
  | PNoLink => "  WARNING: No matching link found for linkType=" +:+ MAPPING_NAME
  | PFoundLink id first second =>
      "  Found link: " +:+ id +:+ " (firstId=" +:+ first +:+ ", secondId=" +:+ second +:+ ")"
  | PWouldDelete id => "  [DRY RUN] Would delete link " +:+ id
  | PDeleted id => "  DELETED link " +:+ id
  | PErrorDeleting id e => "  ERROR deleting link " +:+ id +:+ ": " +:+ exn_text e
  | PRule => rule
  | PSummary => "Summary"
  | PSummaryTotal n => "  Total FOUND_ALREADY_LINKED entries: " +:+ pretty n
  | PSummarySampled n => "  Sampled:         " +:+ pretty n
  | PSummaryDeleted n => "  Links deleted:   " +:+ pretty n
  | PSummaryNotFound n => "  Links not found: " +:+ pretty n
  | PSummaryFailed n => "  Failures:        " +:+ pretty n
  | PWasDryRun => "  This was a DRY RUN. Set SAMPLE_SIZE = -1 to delete all."
  end.

End Script.

(** ** Scripted tenants, for running the script on concrete exchanges *)

(** A tenant that answers from two scripts, one of API replies and one of
    token-endpoint replies, whatever the request; an exhausted script is a
    dropped connection. *)
Definition script : Type := list (option Response) * list (option TokenResponse).

Definition scripted_send (rq : Request) (w : script) : option Response * script :=
  match w.1 with
  | r :: rs => (r, (rs, w.2))
  | [] => (None, w)
  end.

Definition scripted_post_token (w : script) : option TokenResponse * script :=
  match w.2 with
  | r :: rs => (r, (w.1, rs))
  | [] => (None, w)
  end.

Definition scripted (mapping : string) (sample : Z) : Env :=
  {| TENANT_HOST := "idm.example.com";
     MAPPING_NAME := mapping;
     SAMPLE_SIZE := sample;
     World := script;
     send := scripted_send;
     post_token := scripted_post_token;
     set_order := fun _ _ => false;
     exn_text := fun _ => "error" |}.

Definition start `{Env} (t : option string) (w : World) : State :=
  {| _token := t; world := w; trace := []; stdout := [] |}.

Definition ok (b : Body) : option Response :=
  Some {| status_code := 200; json := Some b |}.

Definition status (code : Z) : option Response :=
  Some {| status_code := code; json := Some Document |}.

Definition grant (t : string) : option TokenResponse :=
  Some {| tk_status_code := 200;
          tk_json := Some {| access_token := Some t; expires_in := Some 899 |} |}.

Definition link (id first second : string) (type : option string) : LinkRecord :=
  {| link_id := id; link_rev := "0"; firstId := first; secondId := second;
     linkType := type |}.

Definition entry (source target : option string) : ReconEntry :=
  {| sourceObjectId := source; targetObjectId := target |}.

Definition recon (id mapping started : string) (fal : Z) : Recon :=
  {| recon_id := id; recon_state := "SUCCESS"; recon_mapping := Some mapping;
     recon_started := Some started;
     situationSummary := Some {[ "FOUND_ALREADY_LINKED" := fal ]} |}.

(** ** Concrete runs *)

Module Run.

(** Mapping [managedUser_systemLdap], all entries processed. *)
Definition live : Env := scripted "managedUser_systemLdap" (-1).
(** The same tenant as a dry run, and sampled to two entries. *)
Definition dry : Env := scripted "managedUser_systemLdap" 0.
Definition sampled : Env := scripted "managedUser_systemLdap" 2.

Definition mapping : option string := Some "managedUser_systemLdap".
Definition other_mapping : option string := Some "managedUser_systemAd".

Definition alice : ReconEntry := entry (Some "u-alice") (Some "ldap-alice").
Definition bob : ReconEntry := entry (Some "u-bob") None.
Definition carol : ReconEntry := entry (Some "u-carol") (Some "ldap-carol").
Definition nobody : ReconEntry := entry None (Some EmptyString).

Definition alice_link : LinkRecord := link "l-1" "u-alice" "ldap-alice" mapping.
Definition alice_ad_link : LinkRecord := link "l-9" "u-alice" "ad-alice" other_mapping.
(** Stored the other way round: the user id is the second endpoint. *)
Definition bob_link : LinkRecord := link "l-2" "ldap-bob" "u-bob" mapping.
Definition carol_link : LinkRecord := link "l-3" "u-carol" "ldap-carol" mapping.

Definition run_march : Recon :=
  recon "recon-1" "managedUser_systemLdap" "2024-03-01T08:00:00.000Z" 1.
Definition run_april : Recon :=
  recon "recon-2" "managedUser_systemLdap" "2024-04-01T08:00:00.000Z" 3.
Definition run_other : Recon :=
  recon "recon-3" "managedUser_systemAd" "2024-05-01T08:00:00.000Z" 7.

Definition listing_body : option (list Recon) := Some [run_march; run_april; run_other].

(** The replies to the four link queries for [alice], two for [bob], four
    for [carol]. *)
Definition alice_replies : list (option Response) :=
  [ok (LinkPage (Some [alice_link; alice_ad_link])); ok (LinkPage (Some []));
   ok (LinkPage (Some [])); ok (LinkPage (Some [alice_link]))].
Definition bob_replies : list (option Response) :=
  [ok (LinkPage (Some [])); ok (LinkPage (Some [bob_link]))].
Definition carol_replies : list (option Response) :=
  [ok (LinkPage (Some [carol_link])); ok (LinkPage None);
   ok (LinkPage None); ok (LinkPage (Some [carol_link]))].

(** A whole run: the listing, two pages of entries (2 then 1), and for each
    entry its link queries followed by the reply to its delete. *)
Definition full_run (delete_bob : option Response) : script :=
  ([ok (ReconListing listing_body);
    ok (EntryPage (Some [alice; bob]) (Some "cookie-1"));
    ok (EntryPage (Some [carol]) None)]
   ++ alice_replies ++ [ok Document]
   ++ bob_replies ++ [delete_bob]
   ++ carol_replies ++ [ok Document],
   [grant "token-1"]).

(** The same run without replies to deletes. *)
Definition dry_script : script :=
  ([ok (ReconListing listing_body);
    ok (EntryPage (Some [alice; bob]) (Some "cookie-1"));
    ok (EntryPage (Some [carol]) None)]
   ++ alice_replies ++ bob_replies ++ carol_replies,
   [grant "token-1"]).

Definition pages_script : script :=
  ([ok (EntryPage (Some [alice; bob]) (Some "cookie-1"));
    ok (EntryPage (Some [carol]) None);
    ok (EntryPage (Some [nobody]) None)], []).

(** States the theorems are tried at. *)
Definition recon_request (t : string) : Request :=
  {| rq_method := GET; rq_url := "https://idm.example.com/openidm/recon";
     rq_headers := request_headers t None; rq_params := None |}.

Definition rejected : Response := {| status_code := 401; json := Some Document |}.

(** A cached token the tenant rejects twice. *)
Definition twice_rejected : @State live :=
  @start live (Some "token-0") ([Some rejected; Some rejected], [grant "token-1"]).

(** A reply with status 300 and a JSON body. *)
Definition multiple_choices : @State live :=
  @start live (Some "token-0") ([status 300], []).

Definition listed : @State live :=
  @start live (Some "token-0") ([ok (ReconListing listing_body)], []).

Definition paging : @State live := @start live (Some "token-0") pages_script.

Definition bob_query : @State live := @start live (Some "token-0") (bob_replies, []).

Definition dry_bob : @State dry := @start dry (Some "token-0") (bob_replies, []).

Definition alice_query : @State live :=
  @start live (Some "token-0") (alice_replies, []).

(** The tenant rejects the next request for a stale revision. *)
Definition stale : @State live := @start live (Some "token-0") ([status 412], []).

End Run.

(** ** More concrete runs *)

Module Cases.
Import Run.

(** The token endpoint is down. *)
Definition token_outage : option TokenResponse :=
  Some {| tk_status_code := 503; tk_json := None |}.

(** The tenant rejects the cached token, and the refresh fails. *)
Definition locked_out : @State live :=
  @start live (Some "token-0") ([Some rejected], [token_outage]).

(** Two runs of the mapping started at the same time. *)
Definition run_april_again : Recon :=
  recon "recon-4" "managedUser_systemLdap" "2024-04-01T08:00:00.000Z" 2.

Definition tied_listing : option (list Recon) :=
  Some [run_march; run_april; run_other; run_april_again].

Definition tied : @State live :=
  @start live (Some "token-0") ([ok (ReconListing tied_listing)], []).

(** Runs that carry neither a start timestamp nor a situation summary. *)
Definition run_undated : Recon :=
  {| recon_id := "recon-5"; recon_state := "ACTIVE"; recon_mapping := mapping;
     recon_started := None; situationSummary := None |}.

Definition run_blank : Recon :=
  {| recon_id := "recon-6"; recon_state := "ACTIVE"; recon_mapping := mapping;
     recon_started := Some EmptyString; situationSummary := None |}.

Definition undated_listing : option (list Recon) := Some [run_undated; run_blank].

Definition undated : @State live :=
  @start live (Some "token-0") ([ok (ReconListing undated_listing)], []).

(** A whole run against a tenant whose only run has no summary. *)
Definition without_summary : @State live :=
  @start live None ([ok (ReconListing undated_listing)], [grant "token-1"]).

(** A whole run whose pages hold no entry although the summary counts three. *)
Definition without_entries : @State live :=
  @start live None
    ([ok (ReconListing listing_body); ok (EntryPage (Some []) None)], [grant "token-1"]).

(** The link store answers with a server error. *)
Definition store_down : @State live := @start live (Some "token-0") ([status 500], []).

(** The tenant accepts a delete with 204 No Content. *)
Definition no_content : Response := {| status_code := 204; json := None |}.

Definition accepting : @State live :=
  @start live (Some "token-0") ([Some no_content], []).

(** Two entries: the delete for [alice] succeeds, the one for [bob] is
    rejected. *)
Definition two_entries : @State live :=
  @start live (Some "token-0")
    (alice_replies ++ [ok Document] ++ bob_replies ++ [status 412], []).

(** A tenant that answers every request with the same page and a
    continuation token. *)
Definition endless : Env :=
  {| TENANT_HOST := "idm.example.com";
     MAPPING_NAME := "managedUser_systemLdap";
     SAMPLE_SIZE := -1;
     World := unit;
     send := fun _ w => (ok (EntryPage (Some [alice]) (Some "cookie-1")), w);
     post_token := fun w => (grant "token-1", w);
     set_order := fun _ _ => false;
     exn_text := fun _ => "error" |}.

End Cases.

(** * Specification vocabulary *)

Section Vocabulary.
Context `{E : Env}.
Local Open Scope py_scope.

(** [spec m Q]: from any state, [m] extends the trace by some events [evs]
    and the output by some lines [ls], and [Q] relates them to the outcome. *)
Definition spec {A} (m : M A) (Q : outcome A -> list Event -> list Line -> Prop) : Prop :=
  forall s, exists evs ls,
    trace (m s).2 = trace s ++ evs /\ stdout (m s).2 = stdout s ++ ls /\ Q (m s).1 evs ls.

(** Every request among the events satisfies [P]. *)
Definition sent_with (P : Request -> Prop) (ev : Event) : Prop :=
  match ev with
  | Sent rq _ => P rq
  | Refreshed _ => True
  end.

(** The request [_do_request method path params rev] builds, for some token. *)
Definition request_shape (method : Method) (path : string)
    (params : option (list (string * string))) (rev : option string) (rq : Request) : Prop :=
  rq_method rq = method /\ rq_url rq = BASE_URL +:+ path /\ rq_params rq = params /\
  exists tok, rq_headers rq = request_headers tok rev.

(** [data] is the decoded body of a reply to one of the requests in [evs]. *)
Definition answered (P : Request -> Prop) (data : Body) (evs : list Event) : Prop :=
  exists rq resp, Sent rq (Some resp) ∈ evs /\ P rq /\ json resp = Some data.

(** Outcomes of the client: requests of one shape, a value that satisfies
    [D], or an exception that [except Exception] catches. *)
Definition client_post {A} (P : Request -> Prop) (D : A -> list Event -> Prop)
    (r : outcome A) (evs : list Event) (ls : list Line) : Prop :=
  Forall (sent_with P) evs /\
  match r with
  | Return a => D a evs
  | Raise e => is_Exception e = true
  | OutOfFuel => False
  end.

(** The state in which [main] calls [find_latest_recon]. *)
Definition before_recon (s : State) : State :=
  add_line PFindingRecon (add_line PBlank (set_token None (add_line PInitToken
    (add_line PBlank (add_line PMode (add_line PMapping (add_line PTenant s))))))).

(** The protocol of [get_found_already_linked_entries] as the tenant sees
    it: [paged recon_id cookie page s batches s'] when the requests that
    start from continuation token [cookie] in state [s] are answered by the
    pages [batches], of which only the last one stops the iteration (no
    continuation token, or no entries), and leave the script in [s'].
    [page] counts the pages fetched before, for the progress line. *)
Inductive paged (recon_id : string) :
    option string -> nat -> State -> list (list ReconEntry) -> State -> Prop :=
| paged_last cookie page s s1 result next :
    api_get ("/recon/assoc/" +:+ recon_id +:+ "/entry") (Some (page_params cookie)) s
      = (Return (EntryPage result next), s1) ->
    truthy next = false \/ default [] result = [] ->
    paged recon_id cookie page s [default [] result]
      (add_line (PFetchedPage (S page) (length (default [] result))) s1)
| paged_more cookie page s s1 result next batches s' :
    api_get ("/recon/assoc/" +:+ recon_id +:+ "/entry") (Some (page_params cookie)) s
      = (Return (EntryPage result next), s1) ->
    truthy next = true ->
    default [] result <> [] ->
    paged recon_id next (S page)
      (add_line (PFetchedPage (S page) (length (default [] result))) s1) batches s' ->
    paged recon_id cookie page s (default [] result :: batches) s'.

(** A page request: a GET of the run's entries, 500 at a time, filtered to
    the FOUND_ALREADY_LINKED situation. *)
Definition page_request (recon_id : string) (rq : Request) : Prop :=
  rq_method rq = GET /\
  rq_url rq = BASE_URL +:+ "/recon/assoc/" +:+ recon_id +:+ "/entry" /\
  exists params, rq_params rq = Some params /\
    ("_pageSize", "500") ∈ params /\
    ("_queryFilter", "situation eq " +:+ dquote +:+ "FOUND_ALREADY_LINKED" +:+ dquote)
      ∈ params.

(** A query of the link store on one endpoint field. *)
Definition link_request (field search_id : string) (rq : Request) : Prop :=
  rq_method rq = GET /\ rq_url rq = BASE_URL +:+ "/repo/link" /\
  rq_params rq = Some (link_query field search_id).

Definition bump_not_found (c : Counters) : Counters :=
  {| deleted := deleted c; failed := failed c; not_found := S (not_found c) |}.

Definition bump_deleted (c : Counters) : Counters :=
  {| deleted := S (deleted c); failed := failed c; not_found := not_found c |}.

Definition bump_failed (c : Counters) : Counters :=
  {| deleted := deleted c; failed := S (failed c); not_found := not_found c |}.

(** [segment J m]: whatever [m] adds to the trace satisfies [J]. *)
Definition segment {A} (J : list Event -> Prop) (m : M A) : Prop :=
  spec m (fun _ evs _ => J evs).

(** Properties of trace segments that survive sequencing. *)
Definition additive (J : list Event -> Prop) : Prop :=
  J [] /\ forall a b, J a -> J b -> J (a ++ b).

Definition gets_only (evs : list Event) : Prop :=
  Forall (sent_with (fun rq => rq_method rq = GET)) evs.

(** The record [l] came back in the reply to a link query among [evs]. *)
Definition link_returned (l : LinkRecord) (evs : list Event) : Prop :=
  exists rq resp ls,
    Sent rq (Some resp) ∈ evs /\ rq_method rq = GET /\
    rq_url rq = BASE_URL +:+ "/repo/link" /\
    json resp = Some (LinkPage (Some ls)) /\ l ∈ ls.

(** Every DELETE request among [evs] addresses, by [_id], a record of the
    configured link type that a link query earlier in [evs] returned. *)
Definition deletes_justified (evs : list Event) : Prop :=
  forall before rq reply after,
    evs = before ++ Sent rq reply :: after ->
    rq_method rq = DELETE ->
    exists l, linkType l = Some MAPPING_NAME /\
              rq_url rq = BASE_URL +:+ "/repo/link/" +:+ link_id l /\
              link_returned l before.

Definition link_get (rq : Request) : Prop :=
  rq_method rq = GET /\ rq_url rq = BASE_URL +:+ "/repo/link".

(** During [for_in] over link queries the candidates only grow by records
    the queries returned. *)
Definition grows (acc acc' : list LinkRecord) (evs : list Event) : Prop :=
  forall l, l ∈ acc' -> l ∈ acc \/ link_returned l evs.

(** What the dry run prints for the resolved links of an entry. *)
Definition listing (links : list LinkRecord) (s : State) : State :=
  foldl (fun st l =>
           add_line (PWouldDelete (link_id l))
             (add_line (PFoundLink (link_id l) (firstId l) (secondId l)) st))
        s links.

Definition no_counts : Counters := {| deleted := 0; failed := 0; not_found := 0 |}.

(** The dry run as the tenant sees it: [resolved total ies s found s'] when
    [find_link] succeeds for each of the numbered entries [ies] in turn,
    with the links [found], the script printing what it prints in a dry
    run. *)
Inductive resolved (total : nat) :
    list (nat * ReconEntry) -> State -> list (list LinkRecord) -> State -> Prop :=
| resolved_nil s : resolved total [] s [] s
| resolved_cons i e rest s links s1 found s' :
    find_link (sourceObjectId e) (targetObjectId e)
      (add_line (PEntry i total (sourceObjectId e) (targetObjectId e)) s)
      = (Return links, s1) ->
    resolved total rest
      (match links with
       | [] => add_line PNoLink s1
       | _ :: _ => listing links s1
       end) found s' ->
    resolved total ((i, e) :: rest) s (links :: found) s'.

(** Number of entries that resolved to no link. *)
Definition unresolved (found : list (list LinkRecord)) : nat :=
  length (filter (fun links => links = []) found).

(** The three counter lines of the summary. *)
Definition is_counter (l : Line) : bool :=
  match l with
  | PSummaryDeleted _ | PSummaryNotFound _ | PSummaryFailed _ => true
  | _ => false
  end.

(** The progress line [[i/n] source=... target=...] that opens the
    processing of an entry. *)
Definition is_progress (l : Line) : bool :=
  match l with
  | PEntry _ _ _ _ => true
  | _ => false
  end.

Definition progress_line (total : nat) (ie : nat * ReconEntry) : Line :=
  PEntry ie.1 total (sourceObjectId ie.2) (targetObjectId ie.2).

(** [quiet m]: [m] prints no progress line. *)
Definition quiet {A} (m : M A) : Prop :=
  spec m (fun _ _ ls => Forall (fun l => is_progress l = false) ls).

Definition is_delete (ev : Event) : bool :=
  match ev with
  | Sent {| rq_method := DELETE |} _ => true
  | _ => false
  end.

End Vocabulary.

(** * Vocabulary for the rest of the script *)

Section CoverageVocabulary.
Context `{E : Env}.
Local Open Scope py_scope.

Definition is_sent (ev : Event) : bool :=
  match ev with
  | Sent _ _ => true
  | Refreshed _ => false
  end.

(** Number of HTTP exchanges with the API among the events. *)
Definition count_sent (evs : list Event) : nat := length (List.filter is_sent evs).

(** Why [refresh] fails on a reply of the token endpoint, if it does. *)
Definition refresh_error (reply : option TokenResponse) : option exn :=
  match reply with
  | None => Some RequestException
  | Some resp =>
      if is_error_status (tk_status_code resp) then Some (HTTPError (tk_status_code resp))
      else match tk_json resp with
           | None => Some JSONDecodeError
           | Some data =>
               match access_token data with
               | None => Some (KeyError "access_token")
               | Some _ => None
               end
           end
  end.

(** A request as the client builds them: under the tenant's base URL, with
    the two fixed headers and a bearer credential. *)
Definition well_formed (rq : Request) : Prop :=
  (exists path, rq_url rq = BASE_URL +:+ path) /\
  ("Accept-API-Version", "resource=1.0") ∈ rq_headers rq /\
  ("Content-Type", "application/json") ∈ rq_headers rq /\
  exists tok, ("Authorization", "Bearer " +:+ tok) ∈ rq_headers rq.

(** The conditional-delete precondition a request carries. *)
Definition if_match (rq : Request) : list string :=
  omap (fun kv => if String.eqb kv.1 "If-Match" then Some kv.2 else None) (rq_headers rq).

(** [recon.get("situationSummary", {}).get("FOUND_ALREADY_LINKED", 0)] *)
Definition fal_count (recon : Recon) : Z :=
  default 0 (default ∅ (situationSummary recon) !! "FOUND_ALREADY_LINKED").

(** Counting lines of one kind. *)
Definition count_lines (p : Line -> bool) (ls : list Line) : nat :=
  length (List.filter p ls).

Definition is_deleted_line (l : Line) : bool :=
  match l with PDeleted _ => true | _ => false end.

Definition is_error_line (l : Line) : bool :=
  match l with PErrorDeleting _ _ => true | _ => false end.

Definition is_warning_line (l : Line) : bool :=
  match l with PNoLink => true | _ => false end.

Definition is_found_line (l : Line) : bool :=
  match l with PFoundLink _ _ _ => true | _ => false end.

Definition is_would_delete_line (l : Line) : bool :=
  match l with PWouldDelete _ => true | _ => false end.

(** The lines the credential provider and the API client print. *)
Definition is_token_line (l : Line) : bool :=
  match l with
  | PTokenAcquired _ | PTokenExpired => true
  | _ => false
  end.

(** [prints_only p m]: every line [m] prints satisfies [p]. *)
Definition prints_only {A} (p : Line -> bool) (m : M A) : Prop :=
  spec m (fun _ _ ls => Forall (fun l => p l = true) ls).

(** The counters [c'] are the counters [c] advanced by what the lines [ls]
    report, and every link found in [ls] is reported once: as deleted, as
    failed, or as one a dry run would delete. *)
Definition tallies (c c' : Counters) (ls : list Line) : Prop :=
  deleted c' = (deleted c + count_lines is_deleted_line ls)%nat /\
  failed c' = (failed c + count_lines is_error_line ls)%nat /\
  not_found c' = (not_found c + count_lines is_warning_line ls)%nat /\
  count_lines is_found_line ls =
    (count_lines is_deleted_line ls + count_lines is_error_line ls
     + count_lines is_would_delete_line ls)%nat.

Definition tallied {A} (c : Counters) (r : outcome Counters) (evs : list A)
    (ls : list Line) : Prop :=
  match r with
  | Return c' => tallies c c' ls
  | _ => True
  end.

(** The state after [main] has reported the run it found (lines 202-206). *)
Definition recon_report (recon : Recon) (s : State) : State :=
  add_line PBlank
    (add_line (PReconCount (fal_count recon))
       (add_line (PReconStarted (recon_started recon))
          (add_line (PReconState (recon_state recon))
             (add_line (PReconId (recon_id recon)) s)))).

End CoverageVocabulary.

(** * Verification *)

Section Proofs.
Context `{E : Env}.
Local Open Scope py_scope.

(** ** The trace logic *)

Lemma spec_weaken {A} (m : M A) (Q Q' : outcome A -> list Event -> list Line -> Prop) :
  spec m Q -> (forall r evs ls, Q r evs ls -> Q' r evs ls) -> spec m Q'.
Proof.
  intros Hm HQ s. destruct (Hm s) as (evs & ls & ? & ? & ?).
  exists evs, ls. auto.
Qed.

Lemma spec_ret {A} (a : A) (Q : outcome A -> list Event -> list Line -> Prop) :
  Q (Return a) [] [] -> spec (ret a) Q.
Proof. intros HQ s. exists [], []. cbn. rewrite !app_nil_r. auto. Qed.

Lemma spec_raise {A} (e : exn) (Q : outcome A -> list Event -> list Line -> Prop) :
  Q (Raise e) [] [] -> spec (raise e) Q.
Proof. intros HQ s. exists [], []. cbn. rewrite !app_nil_r. auto. Qed.

Lemma spec_print (l : Line) (Q : outcome unit -> list Event -> list Line -> Prop) :
  Q (Return tt) [] [l] -> spec (print l) Q.
Proof. intros HQ s. exists [], [l]. cbn. rewrite app_nil_r. auto. Qed.

Lemma spec_bind {A B} (m : M A) (k : A -> M B)
    (Q1 : outcome A -> list Event -> list Line -> Prop)
    (Q2 : A -> outcome B -> list Event -> list Line -> Prop)
    (Q : outcome B -> list Event -> list Line -> Prop) :
  spec m Q1 ->
  (forall a, spec (k a) (Q2 a)) ->
  (forall a evs1 ls1 r evs2 ls2,
      Q1 (Return a) evs1 ls1 -> Q2 a r evs2 ls2 -> Q r (evs1 ++ evs2) (ls1 ++ ls2)) ->
  (forall e evs ls, Q1 (Raise e) evs ls -> Q (Raise e) evs ls) ->
  (forall evs ls, Q1 OutOfFuel evs ls -> Q OutOfFuel evs ls) ->
  spec (bind m k) Q.
Proof.
  intros Hm Hk Hret Hraise Hfuel s.
  destruct (Hm s) as (evs1 & ls1 & Ht1 & Ho1 & HQ1).
  unfold bind. destruct (m s) as [[a | e |] s1]; cbn in *.
  - destruct (Hk a s1) as (evs2 & ls2 & Ht2 & Ho2 & HQ2).
    exists (evs1 ++ evs2), (ls1 ++ ls2).
    rewrite Ht2, Ho2, Ht1, Ho1, !app_assoc. eauto.
  - exists evs1, ls1. auto.
  - exists evs1, ls1. auto.
Qed.

(** Sequencing two client computations of the same request shape. *)
Lemma client_bind {A B} (P : Request -> Prop) (m : M A) (k : A -> M B)
    (D1 : A -> list Event -> Prop) (D2 : A -> B -> list Event -> Prop)
    (D : B -> list Event -> Prop) :
  spec m (client_post P D1) ->
  (forall a, spec (k a) (client_post P (D2 a))) ->
  (forall a evs1 b evs2, D1 a evs1 -> D2 a b evs2 -> D b (evs1 ++ evs2)) ->
  spec (bind m k) (client_post P D).
Proof.
  intros Hm Hk HD.
  apply (spec_bind m k (client_post P D1) (fun a => client_post P (D2 a)));
    [exact Hm | exact Hk | | | ].
  - intros a evs1 ls1 r evs2 ls2 [HF1 H1] [HF2 H2]. split.
    + apply Forall_app; auto.
    + destruct r; eauto.
  - intros e evs ls [HF H]. split; auto.
  - intros evs ls [HF H]. split; auto.
Qed.

(** ** The credential provider and the API client *)

Local Ltac events :=
  repeat split; auto;
  repeat (apply Forall_cons; split; [cbn; try exact I; auto|]);
  try apply Forall_nil; try exact I.

Lemma refresh_spec (P : Request -> Prop) :
  spec refresh (client_post P (fun _ _ => True)).
Proof.
  intros s. unfold refresh.
  destruct (post_token (world s)) as [[resp|] w]; cbn.
  2: { exists [Refreshed None], []. rewrite app_nil_r. events. }
  unfold bind, raise_for_status.
  destruct (is_error_status (tk_status_code resp)); cbn.
  { exists [Refreshed (Some resp)], []. rewrite app_nil_r. events. }
  destruct (tk_json resp) as [data|]; cbn.
  2: { exists [Refreshed (Some resp)], []. rewrite app_nil_r. events. }
  destruct (access_token data) as [t|]; cbn.
  2: { exists [Refreshed (Some resp)], []. rewrite app_nil_r. events. }
  exists [Refreshed (Some resp)], [PTokenAcquired (expires_in data)].
  events.
Qed.

Lemma token_spec (P : Request -> Prop) :
  spec token (client_post P (fun _ _ => True)).
Proof.
  intros s. unfold token.
  destruct (truthy (_token s)).
  - exists [], []. cbn. rewrite !app_nil_r. events.
  - pose proof (refresh_spec P s) as (evs & ls & Ht & Ho & HF & Hr).
    unfold bind. destruct (refresh s) as [[[]| e |] s1]; cbn in *;
      exists evs, ls; events.
Qed.

Lemma request_spec (P : Request -> Prop) (rq : Request) :
  P rq ->
  spec (request rq)
    (client_post P (fun resp evs => evs = [Sent rq (Some resp)])).
Proof.
  intros HP s. unfold request.
  destruct (send rq (world s)) as [[resp|] w]; cbn.
  - exists [Sent rq (Some resp)], []. rewrite app_nil_r. events.
  - exists [Sent rq None], []. rewrite app_nil_r. events.
Qed.

Lemma raise_for_status_spec (P : Request -> Prop) (code : Z) :
  spec (raise_for_status code)
       (client_post P (fun _ evs => evs = [] /\ is_error_status code = false)).
Proof.
  unfold raise_for_status. destruct (is_error_status code) eqn:Hc.
  - apply spec_raise. split; auto.
  - apply spec_ret. split; auto.
Qed.

Lemma resp_json_spec (P : Request -> Prop) (resp : Response) :
  spec (resp_json resp)
       (client_post P (fun data evs => evs = [] /\ json resp = Some data)).
Proof.
  unfold resp_json. destruct (json resp).
  - apply spec_ret. split; auto.
  - apply spec_raise. split; auto.
Qed.

Lemma do_request_loop_cons attempt rest method path params rev :
  _do_request_loop (attempt :: rest) method path params rev =
  (tok <- token ;;
   resp <- request {| rq_method := method; rq_url := BASE_URL +:+ path;
                      rq_headers := request_headers tok rev;
                      rq_params := params |} ;;
   if (status_code resp =? 401) && (attempt =? 0)%nat then
     print PTokenExpired ;;;
     refresh ;;;
     _do_request_loop rest method path params rev
   else
     raise_for_status (status_code resp) ;;;
     resp_json resp).
Proof. reflexivity. Qed.

(** An attempt that is not the first never retries: it returns the decoded
    body of the reply it got, or raises. *)
Lemma do_request_last_attempt (attempt : nat) (rest : list nat) method path params rev :
  attempt <> 0%nat ->
  spec (_do_request_loop (attempt :: rest) method path params rev)
       (client_post (request_shape method path params rev)
          (answered (request_shape method path params rev))).
Proof.
  intros Hne. rewrite do_request_loop_cons.
  set (P := request_shape method path params rev).
  apply (client_bind P _ _ (fun _ _ => True) (fun _ => answered P) (answered P));
    [apply token_spec | | ].
  - intros tok.
    set (rq := {| rq_method := method; rq_url := BASE_URL +:+ path;
                  rq_headers := request_headers tok rev; rq_params := params |}).
    assert (HP : P rq) by (repeat split; eauto).
    apply (client_bind P _ _ (fun resp evs => evs = [Sent rq (Some resp)])
             (fun resp data evs => evs = [] /\ json resp = Some data) (answered P));
      [apply request_spec; exact HP | | ].
    + intros resp.
      replace (attempt =? 0)%nat with false by (symmetry; apply Nat.eqb_neq; auto).
      rewrite andb_false_r.
      apply (client_bind P _ _
               (fun _ evs => evs = [] /\ is_error_status (status_code resp) = false)
               (fun _ data evs => evs = [] /\ json resp = Some data)
               (fun data evs => evs = [] /\ json resp = Some data));
        [apply raise_for_status_spec | intros _; apply resp_json_spec | ].
      intros [] evs1 data evs2 [-> _] [-> Hj]. auto.
    + intros resp evs1 data evs2 -> [-> Hj].
      exists rq, resp. rewrite app_nil_r.
      split; [apply list_elem_of_singleton; auto | auto].
  - intros tok evs1 data evs2 _ (rq & resp & Hin & HP & Hj).
    exists rq, resp. split; auto. apply elem_of_app; auto.
Qed.

Lemma do_request_spec method path params rev :
  spec (_do_request method path params rev)
       (client_post (request_shape method path params rev)
          (answered (request_shape method path params rev))).
Proof.
  unfold _do_request. change (seq 0 2) with [0; 1]%nat.
  rewrite do_request_loop_cons.
  set (P := request_shape method path params rev).
  apply (client_bind P _ _ (fun _ _ => True) (fun _ => answered P) (answered P));
    [apply token_spec | | ].
  - intros tok.
    set (rq := {| rq_method := method; rq_url := BASE_URL +:+ path;
                  rq_headers := request_headers tok rev; rq_params := params |}).
    assert (HP : P rq) by (repeat split; eauto).
    apply (client_bind P _ _ (fun resp evs => evs = [Sent rq (Some resp)])
             (fun resp data evs => answered P data (Sent rq (Some resp) :: evs))
             (answered P));
      [apply request_spec; exact HP | | ].
    + intros resp. rewrite Nat.eqb_refl, andb_true_r.
      destruct (status_code resp =? 401).
      * apply (client_bind P _ _ (fun _ _ => True) (fun _ => answered P)
                 (fun data evs => answered P data (Sent rq (Some resp) :: evs)));
          [apply spec_print; split; [constructor | exact I] | | ].
        { intros _.
          apply (client_bind P _ _ (fun _ _ => True) (fun _ => answered P) (answered P));
            [apply refresh_spec | | ].
          - intros _. apply do_request_last_attempt. discriminate.
          - intros _ evs1 data evs2 _ (rq' & resp' & Hin & HP' & Hj).
            exists rq', resp'. split; auto. apply elem_of_app; auto. }
        intros _ evs1 data evs2 _ (rq' & resp' & Hin & HP' & Hj).
        exists rq', resp'. split; auto.
        apply elem_of_cons. right. apply elem_of_app. auto.
      * apply (client_bind P _ _
                 (fun _ evs => evs = [] /\ is_error_status (status_code resp) = false)
                 (fun _ data evs => evs = [] /\ json resp = Some data)
                 (fun data evs => answered P data (Sent rq (Some resp) :: evs)));
          [apply raise_for_status_spec | intros _; apply resp_json_spec | ].
        intros [] evs1 data evs2 [-> _] [-> Hj].
        exists rq, resp. split; [apply elem_of_cons; left; reflexivity | auto].
    + intros resp evs1 data evs2 -> H. exact H.
  - intros tok evs1 data evs2 _ (rq & resp & Hin & HP & Hj).
    exists rq, resp. split; auto. apply elem_of_app; auto.
Qed.

(** ** C5: one refresh and one retry on 401 *)

Lemma token_cached (s : State) (tok : string) :
  _token s = Some tok -> tok <> EmptyString -> token s = (Return tok, s).
Proof.
  intros Ht Hne. unfold token. rewrite Ht. cbn.
  destruct (String.eqb_spec tok EmptyString) as [->|_]; [congruence | reflexivity].
Qed.

(** C5 (amended): once the credential [tok] is at hand, a first reply with
    any status but 401 ends the call after that single request: an HTTP
    error for a 4xx or 5xx status, the decoded body otherwise (also for a
    1xx or 3xx status).  A first reply with status 401 is followed by one
    refresh and, when the refresh yields a non-empty token, by one retry of
    the same request under the new token, whose reply ends the call the
    same way: in particular a second 401 raises.  The final state shows the
    trace grows by exactly these events. *)
Theorem do_request_retries_once method path params rev (s s0 : State) (tok : string)
    (resp1 : Response) (w1 : World) :
  let rq t := {| rq_method := method; rq_url := BASE_URL +:+ path;
                 rq_headers := request_headers t rev; rq_params := params |} in
  let finish (resp : Response) : outcome Body :=
    if is_error_status (status_code resp) then Raise (HTTPError (status_code resp))
    else match json resp with
         | Some b => Return b
         | None => Raise JSONDecodeError
         end in
  token s = (Return tok, s0) ->
  send (rq tok) (world s0) = (Some resp1, w1) ->
  let s1 := record (Sent (rq tok) (Some resp1)) w1 s0 in
  (status_code resp1 <> 401 ->
     _do_request method path params rev s = (finish resp1, s1)) /\
  (status_code resp1 = 401 ->
     forall tresp w2 data tok',
       post_token w1 = (Some tresp, w2) ->
       is_error_status (tk_status_code tresp) = false ->
       tk_json tresp = Some data ->
       access_token data = Some tok' ->
       tok' <> EmptyString ->
       forall reply2 w3,
         send (rq tok') w2 = (reply2, w3) ->
         let s2 := add_line (PTokenAcquired (expires_in data))
                     (set_token (Some tok')
                        (record (Refreshed (Some tresp)) w2 (add_line PTokenExpired s1))) in
         let s3 := record (Sent (rq tok') reply2) w3 s2 in
         _do_request method path params rev s =
           (match reply2 with
            | Some resp2 => finish resp2
            | None => Raise RequestException
            end, s3) /\
         trace s3 = trace s0 ++ [Sent (rq tok) (Some resp1); Refreshed (Some tresp);
                                 Sent (rq tok') reply2] /\
         (forall resp2, reply2 = Some resp2 -> status_code resp2 = 401 ->
            (_do_request method path params rev s).1 = Raise (HTTPError 401))).
Proof.
  intros rq finish Htok Hsend s1. split.
  - intros Hne. unfold _do_request. change (seq 0 2) with [0; 1]%nat.
    rewrite do_request_loop_cons. unfold bind at 1. rewrite Htok.
    unfold bind at 1, request. fold (rq tok). rewrite Hsend.
    replace (status_code resp1 =? 401) with false by (symmetry; apply Z.eqb_neq; auto).
    cbn [andb]. fold s1. unfold bind, raise_for_status, resp_json, finish.
    destruct (is_error_status (status_code resp1)); [reflexivity|].
    cbn. destruct (json resp1); reflexivity.
  - intros H401 tresp w2 data tok' Hpost Hok Hjson Hacc Hne reply2 w3 Hsend2 s2 s3.
    assert (Hrun : _do_request method path params rev s =
              (match reply2 with
               | Some resp2 => finish resp2
               | None => Raise RequestException
               end, s3)).
    { unfold _do_request. change (seq 0 2) with [0; 1]%nat.
      rewrite do_request_loop_cons. unfold bind at 1. rewrite Htok.
      unfold bind at 1, request. fold (rq tok). rewrite Hsend.
      rewrite H401. cbn [Z.eqb Pos.eqb Nat.eqb andb]. fold s1.
      unfold bind at 1, print. unfold bind at 1.
      unfold refresh. cbn [world add_line]. fold s1. replace (world s1) with w1 by reflexivity.
      rewrite Hpost. unfold bind at 1, raise_for_status. rewrite Hok. cbn [ret].
      rewrite Hjson, Hacc. unfold bind at 1. unfold print. fold s2.
      rewrite do_request_loop_cons. unfold bind at 1.
      rewrite (token_cached s2 tok') by auto.
      unfold bind at 1, request. fold (rq tok').
      replace (world s2) with w2 by reflexivity. rewrite Hsend2. fold s3.
      destruct reply2 as [resp2|]; [|reflexivity].
      cbn [Nat.eqb]. rewrite andb_false_r.
      unfold bind, raise_for_status, resp_json, finish.
      destruct (is_error_status (status_code resp2)); [reflexivity|].
      cbn. destruct (json resp2); reflexivity. }
    split; [exact Hrun|]. split.
    + cbn. rewrite <- !app_assoc. reflexivity.
    + intros resp2 -> H2. rewrite Hrun. unfold finish. rewrite H2. reflexivity.
Qed.

(** ** C6: the latest reconciliation run of the mapping *)

Lemma leb_trans (a b c : string) :
  String.leb a b = true -> String.leb b c = true -> String.leb a c = true.
Proof.
  unfold String.leb. intros Hab Hbc.
  destruct (String.compare a b) eqn:Cab; try discriminate.
  - apply String.compare_eq_iff in Cab. subst. exact Hbc.
  - destruct (String.compare b c) eqn:Cbc; try discriminate.
    + apply String.compare_eq_iff in Cbc. subst. rewrite Cab. reflexivity.
    + apply OrderedTypeEx.String_as_OT.cmp_lt in Cab, Cbc.
      pose proof (OrderedTypeEx.String_as_OT.lt_trans _ _ _ Cab Cbc) as Hac.
      apply OrderedTypeEx.String_as_OT.cmp_lt in Hac.
      unfold OrderedTypeEx.String_as_OT.cmp in Hac. rewrite Hac. reflexivity.
Qed.

Lemma leb_refl (a : string) : String.leb a a = true.
Proof. destruct (String.leb_total a a); auto. Qed.

(** The head of the sorted list is a member with a greatest key. *)
Lemma sort_started_desc_head (recons : list Recon) :
  match sort_started_desc recons with
  | [] => recons = []
  | latest :: _ =>
      latest ∈ recons /\
      forall r, r ∈ recons -> String.leb (started_key r) (started_key latest) = true
  end.
Proof.
  induction recons as [|a l IH]; [reflexivity|].
  cbn [sort_started_desc foldr]. fold (sort_started_desc l).
  destruct (sort_started_desc l) as [|x rest].
  - subst l. cbn. split; [apply elem_of_cons; auto|].
    intros r Hr. apply list_elem_of_singleton in Hr. subst. apply leb_refl.
  - destruct IH as [Hx Hmax]. cbn [insert_desc].
    destruct (String.leb (started_key x) (started_key a)) eqn:Hle.
    + split; [apply elem_of_cons; auto|].
      intros r Hr. apply elem_of_cons in Hr as [->|Hr]; [apply leb_refl|].
      eapply leb_trans; [apply Hmax, Hr | exact Hle].
    + split; [apply elem_of_cons; auto|].
      intros r Hr. apply elem_of_cons in Hr as [->|Hr]; [|apply Hmax, Hr].
      destruct (String.leb_total (started_key a) (started_key x)); congruence.
Qed.

(** C6: when [GET /recon] answers with a listing, [find_latest_recon]
    keeps the runs whose mapping is [MAPPING_NAME]; if there is one, it
    returns one of them whose start timestamp is lexicographically greatest
    among them; if there is none, it prints the error line and raises
    [SystemExit 1], which no handler of the script catches, so [main] ends
    with it. *)
Theorem find_latest_recon_latest (s s1 : State) (listing : option (list Recon)) :
  api_get "/recon" None s = (Return (ReconListing listing), s1) ->
  let matches :=
    filter (fun r => recon_mapping r = Some MAPPING_NAME) (default [] listing) in
  (matches = [] ->
     find_latest_recon s = (Raise (SystemExit 1), add_line PNoRecon s1) /\
     is_Exception (SystemExit 1) = false /\
     forall fuel s0, s = before_recon s0 ->
       main fuel s0 = (Raise (SystemExit 1), add_line PNoRecon s1)) /\
  (matches <> [] ->
     exists latest,
       find_latest_recon s = (Return latest, s1) /\
       latest ∈ default [] listing /\
       recon_mapping latest = Some MAPPING_NAME /\
       forall r, r ∈ default [] listing -> recon_mapping r = Some MAPPING_NAME ->
         String.leb (started_key r) (started_key latest) = true).
Proof.
  intros Hget matches.
  assert (Hrun : find_latest_recon s =
            match matches with
            | [] => (Raise (SystemExit 1), add_line PNoRecon s1)
            | _ :: _ =>
                match sort_started_desc matches with
                | latest :: _ => (Return latest, s1)
                | [] => (Raise IndexError, s1)
                end
            end).
  { unfold find_latest_recon, bind at 1. rewrite Hget.
    unfold bind at 1. unfold get_reconciliations.
    replace (match listing with Some l => ret l | None => ret [] end s1)
      with (@Return (list Recon) (default [] listing), s1) by (destruct listing; reflexivity).
    fold matches. destruct matches as [|m ms]; [reflexivity|].
    destruct (sort_started_desc (m :: ms)); reflexivity. }
  split.
  - intros Hnil. rewrite Hnil in Hrun. split; [exact Hrun|]. split; [reflexivity|].
    intros fuel s0 ->. unfold main.
    do 5 (unfold bind at 1; unfold print at 1).
    unfold bind at 1. do 2 (unfold bind at 1; unfold print at 1).
    unfold bind at 1. fold (before_recon s0). rewrite Hrun. reflexivity.
  - intros Hne. pose proof (sort_started_desc_head matches) as Hhead.
    destruct matches as [|m ms] eqn:Hm; [congruence|].
    destruct (sort_started_desc (m :: ms)) as [|latest rest]; [discriminate|].
    destruct Hhead as [Hin Hmax]. exists latest.
    rewrite <- Hm in Hin, Hmax. unfold matches in Hin, Hmax.
    apply list_elem_of_filter in Hin as [Hmap Hin].
    split; [exact Hrun|]. split; [exact Hin|]. split; [exact Hmap|].
    intros r Hr Hrm. apply Hmax. apply list_elem_of_filter. auto.
Qed.

(** ** C7: pagination *)

Lemma api_get_spec path params :
  spec (api_get path params)
       (client_post (request_shape GET path params None)
          (answered (request_shape GET path params None))).
Proof. apply do_request_spec. Qed.

Lemma fetch_loop_paged recon_id cookie page s batches s' :
  paged recon_id cookie page s batches s' ->
  forall fuel entries, (length batches <= fuel)%nat ->
    fetch_loop fuel recon_id entries cookie page s
      = (Return (entries ++ concat batches), s').
Proof.
  induction 1 as [cookie page s s1 result next Hget Hstop
                 |cookie page s s1 result next batches s' Hget Hnext Hne Hrest IH];
    intros fuel entries Hfuel.
  - destruct fuel as [|fuel]; [cbn in Hfuel; lia|].
    cbn [fetch_loop]. unfold bind at 1. rewrite Hget.
    unfold bind at 1.
    replace (get_result_entries (EntryPage result next) s1)
      with (@Return (list ReconEntry) (default [] result), s1)
      by (destruct result; reflexivity).
    unfold bind at 1, print. unfold bind at 1. cbn [get_pagedResultsCookie ret].
    cbn [concat]. rewrite app_nil_r.
    destruct Hstop as [Hn | He].
    + rewrite Hn. reflexivity.
    + rewrite He. cbn. rewrite orb_true_r. reflexivity.
  - destruct fuel as [|fuel]; [cbn in Hfuel; lia|].
    cbn [fetch_loop]. unfold bind at 1. rewrite Hget.
    unfold bind at 1.
    replace (get_result_entries (EntryPage result next) s1)
      with (@Return (list ReconEntry) (default [] result), s1)
      by (destruct result; reflexivity).
    unfold bind at 1, print. unfold bind at 1. cbn [get_pagedResultsCookie ret].
    rewrite Hnext.
    replace (length (default [] result) =? 0)%nat with false
      by (destruct (default [] result); [congruence | reflexivity]).
    cbn [negb orb]. rewrite IH by (cbn in Hfuel; lia).
    cbn [concat]. rewrite app_assoc. reflexivity.
Qed.

Lemma page_params_shape recon_id cookie (rq : Request) :
  request_shape GET ("/recon/assoc/" +:+ recon_id +:+ "/entry")
    (Some (page_params cookie)) None rq ->
  page_request recon_id rq.
Proof.
  intros (Hm & Hu & Hp & _). split; [exact Hm|]. split; [exact Hu|].
  exists (page_params cookie). split; [exact Hp|].
  unfold page_params. split; apply elem_of_app; left.
  - apply elem_of_cons. right. apply elem_of_cons. left. reflexivity.
  - apply elem_of_cons. left. reflexivity.
Qed.

Lemma fetch_loop_requests recon_id fuel :
  forall entries cookie page,
    spec (fetch_loop fuel recon_id entries cookie page)
         (fun _ evs _ => Forall (sent_with (page_request recon_id)) evs).
Proof.
  induction fuel as [|fuel IH]; intros entries cookie page.
  - intros s. exists [], []. cbn. rewrite !app_nil_r. auto.
  - cbn [fetch_loop].
    eapply spec_bind with
      (Q1 := fun _ evs _ => Forall (sent_with (page_request recon_id)) evs)
      (Q2 := fun _ _ evs _ => Forall (sent_with (page_request recon_id)) evs).
    + eapply spec_weaken; [apply api_get_spec|].
      intros r evs ls [HF _]. eapply Forall_impl; [exact HF|].
      intros [rq reply|reply]; cbn; [apply page_params_shape | auto].
    + intros data. unfold get_result_entries, get_pagedResultsCookie.
      intros s.
      destruct data as [l|result next|l| |];
        try (exists [], []; cbn; rewrite !app_nil_r; auto; fail).
      * exists [], [PFetchedPage (S page) 0]. cbn. rewrite app_nil_r.
        repeat split; auto.
      * destruct result as [batch|]; cbn.
        -- unfold bind; cbn.
           destruct (negb (truthy next) || (length batch =? 0)%nat).
           ++ exists [], [PFetchedPage (S page) (length batch)]. cbn.
              rewrite app_nil_r. repeat split; auto.
           ++ destruct (IH (entries ++ batch) next (S page)
                         (add_line (PFetchedPage (S page) (length batch)) s))
                as (evs & ls & Ht & Ho & HF).
              exists evs, (PFetchedPage (S page) (length batch) :: ls).
              rewrite Ht, Ho. cbn. rewrite <- app_assoc. auto.
        -- unfold bind; cbn. rewrite orb_true_r.
           exists [], [PFetchedPage (S page) 0]. cbn.
           rewrite app_nil_r. repeat split; auto.
      * exists [], [PFetchedPage (S page) 0]. cbn. rewrite app_nil_r.
        repeat split; auto.
      * exists [], [PFetchedPage (S page) 0]. cbn. rewrite app_nil_r.
        repeat split; auto.
    + intros a evs1 ls1 r evs2 ls2 H1 H2. apply Forall_app; auto.
    + auto.
    + auto.
Qed.

Lemma paged_prefix_nonempty recon_id cookie page s batches s' :
  paged recon_id cookie page s batches s' ->
  exists init last, batches = init ++ [last] /\ Forall (fun b => b <> []) init.
Proof.
  induction 1 as [cookie page s s1 result next Hget Hstop
                 |cookie page s s1 result next batches s' Hget Hnext Hne Hrest IH].
  - exists [], (default [] result). split; [reflexivity | constructor].
  - destruct IH as (init & last & -> & HF).
    exists (default [] result :: init), last. split; [reflexivity|].
    constructor; auto.
Qed.

(** C7: when the page requests, started without a continuation token, are
    answered by pages of which one stops the iteration (the last of
    [batches]: its reply has no continuation token or no entries, and every
    page before it has both), [get_found_already_linked_entries] returns the
    concatenation of these pages in order, for every fuel that covers their
    number; every request it sent is a page request of size 500 filtered to
    FOUND_ALREADY_LINKED.  The function takes no situation count. *)
Theorem fetch_stops_at_first_final_page recon_id (s s' : State)
    (batches : list (list ReconEntry)) :
  paged recon_id None 0 s batches s' ->
  (forall fuel, (length batches <= fuel)%nat ->
     get_found_already_linked_entries fuel recon_id s = (Return (concat batches), s')) /\
  (exists init last, batches = init ++ [last] /\ Forall (fun b => b <> []) init) /\
  (exists evs, trace s' = trace s ++ evs /\
     Forall (sent_with (page_request recon_id)) evs).
Proof.
  intros Hp. split; [|split].
  - intros fuel Hfuel. unfold get_found_already_linked_entries.
    rewrite (fetch_loop_paged _ _ _ _ _ _ Hp fuel [] Hfuel). reflexivity.
  - eapply paged_prefix_nonempty, Hp.
  - destruct (fetch_loop_requests recon_id (length batches) [] None 0%nat s)
      as (evs & ls & Ht & _ & HF).
    rewrite (fetch_loop_paged _ _ _ _ _ _ Hp (length batches) [] (Nat.le_refl _)) in Ht.
    exists evs. auto.
Qed.

(** ** C10 and C8: which link queries [find_link] issues *)

Lemma search_ids_none (source_id target_id : option string) :
  truthy source_id = false -> truthy target_id = false ->
  search_ids source_id target_id = [].
Proof.
  intros Hs Ht. unfold search_ids.
  rewrite filter_cons_False by congruence.
  rewrite filter_cons_False by congruence.
  reflexivity.
Qed.

Lemma truthy_Some (o : option string) :
  truthy o = true -> exists a, o = Some a /\ a <> EmptyString.
Proof.
  destruct o as [a|]; [|discriminate]. cbn.
  destruct (String.eqb_spec a EmptyString); [discriminate|]. eauto.
Qed.

Lemma search_ids_one (source_id target_id : option string) (id : string) :
  id <> EmptyString ->
  (source_id = Some id /\ truthy target_id = false) \/
  (target_id = Some id /\ truthy source_id = false) ->
  search_ids source_id target_id = [id].
Proof.
  intros Hid. assert (Hy : truthy (Some id) = true).
  { cbn. destruct (String.eqb_spec id EmptyString); [congruence | reflexivity]. }
  intros [[-> Ht] | [-> Hs]]; unfold search_ids.
  - rewrite filter_cons_True by exact Hy.
    rewrite filter_cons_False by congruence. reflexivity.
  - rewrite filter_cons_False by congruence.
    rewrite filter_cons_True by exact Hy. reflexivity.
Qed.

(** C10: for an entry whose source and target ids are both absent or empty,
    [find_link] returns the empty list and leaves the state as it was (no
    request is sent), and the loop over the entries prints the warning,
    counts the entry as not found and goes on with the remaining entries. *)
Theorem entry_without_ids_not_found (dry_run : bool) (total i : nat) (e : ReconEntry)
    (rest : list (nat * ReconEntry)) (c : Counters) (s : State) :
  truthy (sourceObjectId e) = false ->
  truthy (targetObjectId e) = false ->
  find_link (sourceObjectId e) (targetObjectId e) s = (Return [], s) /\
  for_in ((i, e) :: rest) (handle_entry dry_run total) c s =
    for_in rest (handle_entry dry_run total) (bump_not_found c)
      (add_line PNoLink
         (add_line (PEntry i total (sourceObjectId e) (targetObjectId e)) s)).
Proof.
  intros Hs Ht.
  assert (Hfind : forall s0,
            find_link (sourceObjectId e) (targetObjectId e) s0 = (Return [], s0)).
  { intros s0. unfold find_link. rewrite search_ids_none by assumption. reflexivity. }
  split; [apply Hfind|].
  cbn [for_in]. unfold bind at 1, handle_entry. cbn [fst snd].
  unfold bind at 1, print. unfold bind at 1. rewrite Hfind. reflexivity.
Qed.

Lemma unique_by_id_subset (candidates : list LinkRecord) :
  forall seen c, c ∈ unique_by_id seen candidates -> c ∈ candidates.
Proof.
  induction candidates as [|x l IH]; intros seen c Hc; cbn in Hc.
  - exact Hc.
  - destruct (decide (link_id x ∈ seen)).
    + apply elem_of_cons. right. eapply IH, Hc.
    + apply elem_of_cons in Hc as [->|Hc]; apply elem_of_cons; eauto.
Qed.

Lemma unique_by_id_keeps (candidates : list LinkRecord) :
  forall seen c,
    c ∈ candidates -> link_id c ∉ seen ->
    (forall c', c' ∈ candidates -> link_id c' = link_id c -> c' = c) ->
    c ∈ unique_by_id seen candidates.
Proof.
  induction candidates as [|x l IH]; intros seen c Hc Hseen Huniq; cbn.
  - exact Hc.
  - destruct (decide (link_id x ∈ seen)) as [Hx|Hx].
    + apply elem_of_cons in Hc as [->|Hc]; [contradiction|].
      apply IH; auto. intros c' Hc'. apply Huniq, elem_of_cons; auto.
    + destruct (decide (link_id x = link_id c)) as [Heq|Hneq].
      * rewrite (Huniq x) by (auto; apply elem_of_cons; auto).
        apply elem_of_cons; auto.
      * apply elem_of_cons in Hc as [->|Hc]; [congruence|].
        apply elem_of_cons. right. apply IH; auto.
        -- intros Hin. apply elem_of_union in Hin as [Hin|Hin]; [|contradiction].
           apply elem_of_singleton in Hin. congruence.
        -- intros c' Hc'. apply Huniq, elem_of_cons; auto.
Qed.

Lemma answered_sent (P : Request -> Prop) data evs :
  answered P data evs -> exists rq reply, Sent rq reply ∈ evs /\ P rq.
Proof. intros (rq & resp & Hin & HP & _). eauto. Qed.

Lemma api_get_sent path params s data s1 :
  api_get path params s = (Return data, s1) ->
  exists evs rq reply,
    trace s1 = trace s ++ evs /\ Sent rq reply ∈ evs /\
    request_shape GET path params None rq.
Proof.
  intros Hget. destruct (api_get_spec path params s) as (evs & ls & Ht & _ & _ & HD).
  rewrite Hget in Ht, HD. cbn in Ht, HD.
  destruct (answered_sent _ _ _ HD) as (rq & reply & Hin & HP).
  exists evs, rq, reply. auto.
Qed.

(** C8: for an entry with exactly one of the two ids populated, the ids to
    search reduce to that id, and [find_link] queries the link store for it
    first as [firstId] and then as [secondId]: when the two queries are
    answered, both requests are in the trace, the result is the answers of
    both, deduplicated and filtered by link type, and a link of the
    configured type returned by either query is in the result (provided the
    tenant returns one record per [_id]). *)
Theorem single_id_searched_in_both_fields (source_id target_id : option string)
    (id : string) (s s1 s2 : State) (r1 r2 : option (list LinkRecord)) :
  id <> EmptyString ->
  (source_id = Some id /\ truthy target_id = false) \/
  (target_id = Some id /\ truthy source_id = false) ->
  api_get "/repo/link" (Some (link_query "firstId" id)) s = (Return (LinkPage r1), s1) ->
  api_get "/repo/link" (Some (link_query "secondId" id)) s1 = (Return (LinkPage r2), s2) ->
  let found := default [] r1 ++ default [] r2 in
  let matching :=
    filter (fun c => linkType c = Some MAPPING_NAME) (unique_by_id ∅ found) in
  search_ids source_id target_id = [id] /\
  find_link source_id target_id s = (Return matching, s2) /\
  (exists evs1 evs2 rq1 reply1 rq2 reply2,
     trace s2 = trace s ++ evs1 ++ evs2 /\
     Sent rq1 reply1 ∈ evs1 /\ link_request "firstId" id rq1 /\
     Sent rq2 reply2 ∈ evs2 /\ link_request "secondId" id rq2) /\
  (forall c, c ∈ found -> linkType c = Some MAPPING_NAME ->
     (forall c', c' ∈ found -> link_id c' = link_id c -> c' = c) ->
     c ∈ matching).
Proof.
  intros Hid Hone Hget1 Hget2 found matching.
  pose proof (search_ids_one _ _ _ Hid Hone) as Hids.
  split; [exact Hids|]. split; [|split].
  - unfold find_link. rewrite Hids. cbn [for_in]. unfold query_id. cbn [for_in].
    unfold query_field at 1. unfold bind at 1. unfold bind at 1. unfold bind at 1.
    unfold bind at 1. rewrite Hget1.
    unfold bind at 1.
    replace (get_result_links (LinkPage r1) s1)
      with (@Return (list LinkRecord) (default [] r1), s1) by (destruct r1; reflexivity).
    cbn [ret]. unfold bind at 1. unfold query_field. unfold bind at 1. rewrite Hget2.
    unfold bind at 1.
    replace (get_result_links (LinkPage r2) s2)
      with (@Return (list LinkRecord) (default [] r2), s2) by (destruct r2; reflexivity).
    reflexivity.
  - destruct (api_get_sent _ _ _ _ _ Hget1) as (evs1 & rq1 & reply1 & Ht1 & Hin1 & HP1).
    destruct (api_get_sent _ _ _ _ _ Hget2) as (evs2 & rq2 & reply2 & Ht2 & Hin2 & HP2).
    exists evs1, evs2, rq1, reply1, rq2, reply2.
    rewrite Ht2, Ht1, app_assoc.
    destruct HP1 as (? & ? & ? & _), HP2 as (? & ? & ? & _).
    repeat split; auto.
  - intros c Hc Htype Huniq. apply list_elem_of_filter. split; [exact Htype|].
    apply unique_by_id_keeps; auto. apply not_elem_of_empty.
Qed.

(** ** Trace segments *)

Lemma segment_ret {A} J (a : A) : additive J -> segment J (ret a).
Proof. intros [Hnil _]. apply spec_ret, Hnil. Qed.

Lemma segment_raise {A} J (e : exn) : additive J -> segment J (@raise _ A e).
Proof. intros [Hnil _]. apply spec_raise, Hnil. Qed.

Lemma segment_print J (l : Line) : additive J -> segment J (print l).
Proof. intros [Hnil _]. apply spec_print, Hnil. Qed.

Lemma segment_bind {A B} J (m : M A) (k : A -> M B) :
  additive J -> segment J m -> (forall a, segment J (k a)) -> segment J (bind m k).
Proof.
  intros [Hnil Happ] Hm Hk.
  apply (spec_bind m k (fun _ evs _ => J evs) (fun _ _ evs _ => J evs)); auto.
Qed.

Lemma segment_for_in {A S} J (body : A -> S -> M S) :
  additive J -> (forall x acc, segment J (body x acc)) ->
  forall l acc, segment J (for_in l body acc).
Proof.
  intros HJ Hbody l. induction l as [|x l IH]; intros acc; cbn [for_in].
  - apply segment_ret, HJ.
  - apply segment_bind; auto.
Qed.

Lemma segment_weaken {A} (J J' : list Event -> Prop) (m : M A) :
  segment J m -> (forall evs, J evs -> J' evs) -> segment J' m.
Proof. intros Hm HJ. eapply spec_weaken; [exact Hm|]. cbn. auto. Qed.

Lemma segment_client {A} P (D : A -> list Event -> Prop) (m : M A) :
  spec m (client_post P D) -> segment (Forall (sent_with P)) m.
Proof. intros Hm. eapply spec_weaken; [exact Hm|]. intros r evs ls [HF _]. exact HF. Qed.

Lemma gets_only_additive : additive gets_only.
Proof. split; [constructor|]. intros a b Ha Hb. apply Forall_app; auto. Qed.

Lemma link_returned_app_l l a b : link_returned l a -> link_returned l (a ++ b).
Proof.
  intros (rq & resp & ls & Hin & H). exists rq, resp, ls.
  split; [apply elem_of_app; auto | exact H].
Qed.

Lemma link_returned_app_r l a b : link_returned l b -> link_returned l (a ++ b).
Proof.
  intros (rq & resp & ls & Hin & H). exists rq, resp, ls.
  split; [apply elem_of_app; auto | exact H].
Qed.

Lemma deletes_justified_additive : additive deletes_justified.
Proof.
  split.
  - intros before rq reply after Heq. destruct before; discriminate.
  - intros a b Ha Hb before rq reply after Heq Hd.
    apply List.app_eq_app in Heq as (mid & [[-> Hmid] | [-> ->]]).
    + destruct mid as [|ev mid]; cbn in Hmid.
      * destruct (Hb [] rq reply after (eq_sym Hmid) Hd) as (l & _ & _ & Hr).
        destruct Hr as (rq' & resp & ls & Hin & _).
        apply elem_of_nil in Hin. destruct Hin.
      * injection Hmid as <- _. apply (Ha before rq reply mid eq_refl Hd).
    + destruct (Hb mid rq reply after eq_refl Hd) as (l & Ht & Hu & Hr).
      exists l. auto using link_returned_app_r.
Qed.

Lemma gets_only_justified evs : gets_only evs -> deletes_justified evs.
Proof.
  intros H before rq reply after -> Hd.
  apply Forall_app in H as [_ H]. apply Forall_cons in H as [Hget _].
  cbn in Hget. congruence.
Qed.

Lemma api_get_gets path params : segment gets_only (api_get path params).
Proof.
  eapply segment_weaken; [eapply segment_client, api_get_spec|].
  intros evs HF. eapply Forall_impl; [exact HF|].
  intros [rq reply|reply]; cbn; [intros (? & _); auto | auto].
Qed.

Lemma find_latest_recon_gets : segment gets_only find_latest_recon.
Proof.
  pose proof gets_only_additive as HJ. unfold find_latest_recon.
  apply segment_bind; [exact HJ | apply api_get_gets | intros data].
  apply segment_bind; [exact HJ | | intros all].
  - unfold get_reconciliations.
    destruct data as [[l|]| | | |]; first [apply segment_ret | apply segment_raise]; exact HJ.
  - destruct (filter _ all).
    + apply segment_bind; [exact HJ | apply segment_print, HJ | intros _].
      apply segment_raise, HJ.
    + destruct (sort_started_desc _); [apply segment_raise | apply segment_ret]; exact HJ.
Qed.

Lemma fetch_gets fuel recon_id :
  segment gets_only (get_found_already_linked_entries fuel recon_id).
Proof.
  eapply spec_weaken; [apply fetch_loop_requests|]. cbn.
  intros _ evs _ HF. eapply Forall_impl; [exact HF|].
  intros [rq reply|reply]; cbn; [intros (? & _); auto | auto].
Qed.

(** ** What [find_link] returns *)

Lemma query_field_spec search_id field acc :
  spec (query_field search_id field acc) (client_post link_get (grows acc)).
Proof.
  intros s.
  destruct (api_get_spec "/repo/link" (Some (link_query field search_id)) s)
    as (evs & ls & Ht & Ho & HF & HD).
  assert (HF' : Forall (sent_with link_get) evs).
  { eapply Forall_impl; [exact HF|].
    intros [rq reply|reply]; cbn; [intros (? & ? & _); split; auto | auto]. }
  unfold query_field, bind.
  destruct (api_get "/repo/link" (Some (link_query field search_id)) s)
    as [[data|e|] s1]; cbn in *.
  - destruct data as [l|result next|[found|]| |]; cbn;
      exists evs, ls; (split; [exact Ht|]); (split; [exact Ho|]);
      (split; [exact HF'|]); try reflexivity;
      try (intros l' Hl'; rewrite ?app_nil_r in Hl'; auto; fail).
    intros l' Hl'. apply elem_of_app in Hl' as [Hl'|Hl']; [auto|]. right.
    destruct HD as (rq & resp & Hin & (Hm & Hu & _) & Hj).
    exists rq, resp, found. auto.
  - exists evs, ls. repeat split; auto.
  - destruct HD.
Qed.

Lemma grows_refl acc : grows acc acc [].
Proof. intros l Hl. auto. Qed.

Lemma grows_trans acc acc' acc'' evs1 evs2 :
  grows acc acc' evs1 -> grows acc' acc'' evs2 -> grows acc acc'' (evs1 ++ evs2).
Proof.
  intros H1 H2 l Hl. destruct (H2 l Hl) as [Hl'|Hr].
  - destruct (H1 l Hl') as [?|Hr]; auto using link_returned_app_l.
  - auto using link_returned_app_r.
Qed.

Lemma grows_for_in {A} (body : A -> list LinkRecord -> M (list LinkRecord)) :
  (forall x acc, spec (body x acc) (client_post link_get (grows acc))) ->
  forall l acc, spec (for_in l body acc) (client_post link_get (grows acc)).
Proof.
  intros Hbody l. induction l as [|x l IH]; intros acc; cbn [for_in].
  - apply spec_ret. split; [constructor | apply grows_refl].
  - apply (client_bind link_get _ _ (grows acc) (fun acc' => grows acc') (grows acc));
      auto.
    intros acc' evs1 acc'' evs2. apply grows_trans.
Qed.

Lemma find_link_spec source_id target_id :
  spec (find_link source_id target_id)
       (client_post link_get
          (fun links evs =>
             forall l, l ∈ links ->
               linkType l = Some MAPPING_NAME /\ link_returned l evs)).
Proof.
  unfold find_link.
  apply (client_bind link_get _ _ (grows [])
           (fun candidates links evs =>
              evs = [] /\
              forall l, l ∈ links -> linkType l = Some MAPPING_NAME /\ l ∈ candidates)
           (fun links evs =>
              forall l, l ∈ links ->
                linkType l = Some MAPPING_NAME /\ link_returned l evs)).
  - apply grows_for_in. intros search_id acc. unfold query_id.
    apply grows_for_in. intros field acc'. apply query_field_spec.
  - intros candidates. apply spec_ret. split; [constructor|]. split; [reflexivity|].
    intros l Hl. apply list_elem_of_filter in Hl as [Ht Hl]. split; [exact Ht|].
    eapply unique_by_id_subset, Hl.
  - intros candidates evs1 links evs2 Hg [-> Hl] l Hin. rewrite app_nil_r.
    destruct (Hl l Hin) as [Ht Hc]. split; [exact Ht|].
    destruct (Hg l Hc) as [Hnil|Hr]; [|exact Hr].
    apply elem_of_nil in Hnil. destruct Hnil.
Qed.

(** ** The loops of [main] *)

Lemma api_delete_outcome path rev (s : State) :
  match (api_delete path rev s).1 with
  | Return _ => True
  | Raise e => is_Exception e = true
  | OutOfFuel => False
  end.
Proof.
  destruct (do_request_spec DELETE path None (Some rev) s) as (evs & ls & _ & _ & _ & HD).
  unfold api_delete. destruct (_do_request DELETE path None (Some rev) s) as [[b|e|] s1];
    cbn in *; auto.
Qed.

(** One turn of [for link in links] outside the dry run. *)
Lemma handle_link_live (link : LinkRecord) (c : Counters) (s : State) :
  let s0 := add_line (PFoundLink (link_id link) (firstId link) (secondId link)) s in
  let attempt := api_delete ("/repo/link/" +:+ link_id link) (link_rev link) s0 in
  handle_link false link c s =
    match attempt.1 with
    | Return _ => (Return (bump_deleted c), add_line (PDeleted (link_id link)) attempt.2)
    | Raise e => (Return (bump_failed c), add_line (PErrorDeleting (link_id link) e) attempt.2)
    | OutOfFuel => (OutOfFuel, attempt.2)
    end.
Proof.
  intros s0 attempt. pose proof (api_delete_outcome ("/repo/link/" +:+ link_id link)
                                   (link_rev link) s0) as Hout.
  unfold handle_link. unfold bind at 1, print. fold s0.
  unfold try_except. unfold bind at 1. fold attempt. fold attempt in Hout.
  destruct attempt as [[b|e|] s1]; cbn in *.
  - reflexivity.
  - rewrite Hout. reflexivity.
  - reflexivity.
Qed.

Lemma handle_links_live_total (links : list LinkRecord) :
  forall c s, exists c' s',
    for_in links (handle_link false) c s = (Return c', s') /\
    (deleted c' + failed c' = deleted c + failed c + length links)%nat /\
    not_found c' = not_found c.
Proof.
  induction links as [|link links IH]; intros c s.
  - exists c, s. cbn. repeat split; lia.
  - cbn [for_in]. unfold bind. rewrite handle_link_live.
    pose proof (api_delete_outcome ("/repo/link/" +:+ link_id link) (link_rev link)
                  (add_line (PFoundLink (link_id link) (firstId link) (secondId link)) s))
      as Hout.
    destruct (api_delete _ _ _) as [[b|e|] s1]; cbn in *.
    + destruct (IH (bump_deleted c) (add_line (PDeleted (link_id link)) s1))
        as (c' & s' & -> & Hsum & Hnf).
      exists c', s'. cbn in *. repeat split; [lia | exact Hnf].
    + destruct (IH (bump_failed c) (add_line (PErrorDeleting (link_id link) e) s1))
        as (c' & s' & -> & Hsum & Hnf).
      exists c', s'. cbn in *. repeat split; [lia | exact Hnf].
    + destruct Hout.
Qed.

(** C9: outside the dry run, a delete call that raises is caught: the link
    is counted as failed, the error line is printed and the loop goes on
    with the next link; a delete call that returns counts the link as
    deleted.  So the loop over the links of an entry never raises: it ends
    with every link counted once, as deleted or as failed, and the loop over
    the entries goes on with the next entry. *)
Theorem failed_delete_counted_and_skipped (link : LinkRecord) (links : list LinkRecord)
    (c : Counters) (s : State) :
  let s0 := add_line (PFoundLink (link_id link) (firstId link) (secondId link)) s in
  let attempt := api_delete ("/repo/link/" +:+ link_id link) (link_rev link) s0 in
  (forall e, attempt.1 = Raise e ->
     for_in (link :: links) (handle_link false) c s =
       for_in links (handle_link false) (bump_failed c)
         (add_line (PErrorDeleting (link_id link) e) attempt.2)) /\
  (forall b, attempt.1 = Return b ->
     for_in (link :: links) (handle_link false) c s =
       for_in links (handle_link false) (bump_deleted c)
         (add_line (PDeleted (link_id link)) attempt.2)) /\
  (exists c' s',
     for_in (link :: links) (handle_link false) c s = (Return c', s') /\
     (deleted c' + failed c' = deleted c + failed c + S (length links))%nat /\
     not_found c' = not_found c) /\
  (forall total i e rest s1 s2,
     find_link (sourceObjectId e) (targetObjectId e)
       (add_line (PEntry i total (sourceObjectId e) (targetObjectId e)) s1)
       = (Return (link :: links), s2) ->
     exists c' s',
       for_in (link :: links) (handle_link false) c s2 = (Return c', s') /\
       for_in ((i, e) :: rest) (handle_entry false total) c s1 =
         for_in rest (handle_entry false total) c' s').
Proof.
  intros s0 attempt. split; [|split; [|split]].
  - intros e He. cbn [for_in]. unfold bind at 1. rewrite handle_link_live.
    fold s0. fold attempt. rewrite He. reflexivity.
  - intros b Hb. cbn [for_in]. unfold bind at 1. rewrite handle_link_live.
    fold s0. fold attempt. rewrite Hb. reflexivity.
  - destruct (handle_links_live_total (link :: links) c s) as (c' & s' & Hrun & Hsum & Hnf).
    exists c', s'. cbn [length] in Hsum. repeat split; auto.
  - intros total i e rest s1 s2 Hfind.
    destruct (handle_links_live_total (link :: links) c s2) as (c' & s' & Hrun & _).
    exists c', s'. split; [exact Hrun|].
    cbn [for_in]. unfold bind at 1. unfold handle_entry at 1. cbn [fst snd].
    unfold bind at 1, print. unfold bind at 1. rewrite Hfind.
    cbn [for_in] in Hrun. cbn [for_in]. rewrite Hrun. reflexivity.
Qed.

(** Whatever [handle_link] sends is a DELETE of that very link. *)
Lemma handle_link_requests dry_run (link : LinkRecord) (c : Counters) :
  segment (Forall (sent_with
             (request_shape DELETE ("/repo/link/" +:+ link_id link) None
                (Some (link_rev link)))))
          (handle_link dry_run link c).
Proof.
  intros s. destruct dry_run.
  - exists [], [PFoundLink (link_id link) (firstId link) (secondId link);
                PWouldDelete (link_id link)].
    cbn. rewrite app_nil_r, <- app_assoc. repeat split; constructor.
  - rewrite handle_link_live.
    destruct (do_request_spec DELETE ("/repo/link/" +:+ link_id link) None
                (Some (link_rev link))
                (add_line (PFoundLink (link_id link) (firstId link) (secondId link)) s))
      as (evs & ls & Ht & Ho & HF & HD).
    unfold api_delete.
    destruct (_do_request DELETE _ None _ _) as [[b|e|] s1]; cbn in *.
    + exists evs, ((PFoundLink (link_id link) (firstId link) (secondId link) :: ls)
                   ++ [PDeleted (link_id link)]).
      rewrite Ht, Ho. cbn. rewrite <- !app_assoc. auto.
    + exists evs, ((PFoundLink (link_id link) (firstId link) (secondId link) :: ls)
                   ++ [PErrorDeleting (link_id link) e]).
      rewrite Ht, Ho. cbn. rewrite <- !app_assoc. auto.
    + destruct HD.
Qed.

Lemma handle_links_requests dry_run (links : list LinkRecord) :
  forall c,
    segment (Forall (sent_with (fun rq =>
               exists l, l ∈ links /\
                 request_shape DELETE ("/repo/link/" +:+ link_id l) None
                   (Some (link_rev l)) rq)))
            (for_in links (handle_link dry_run) c).
Proof.
  induction links as [|link links IH]; intros c; cbn [for_in].
  - apply spec_ret. constructor.
  - apply segment_bind.
    + split; [constructor|]. intros a b Ha Hb. apply Forall_app; auto.
    + eapply segment_weaken; [apply handle_link_requests|].
      intros evs HF. eapply Forall_impl; [exact HF|].
      intros [rq reply|reply]; cbn; [|auto].
      intros Hshape. exists link. split; [apply elem_of_cons; auto | exact Hshape].
    + intros c'. eapply segment_weaken; [apply IH|].
      intros evs HF. eapply Forall_impl; [exact HF|].
      intros [rq reply|reply]; cbn; [|auto].
      intros (l & Hl & Hshape). exists l. split; [apply elem_of_cons; auto | exact Hshape].
Qed.

(** One turn of the loop over the entries deletes only what it resolved. *)
Lemma handle_entry_justified dry_run total ie c :
  segment deletes_justified (handle_entry dry_run total ie c).
Proof.
  unfold handle_entry.
  apply segment_bind; [apply deletes_justified_additive | | intros _].
  { apply segment_print, deletes_justified_additive. }
  apply (spec_bind _ _
           (client_post link_get
              (fun links evs =>
                 forall l, l ∈ links ->
                   linkType l = Some MAPPING_NAME /\ link_returned l evs))
           (fun links _ evs _ =>
              Forall (sent_with (fun rq =>
                exists l, l ∈ links /\
                  request_shape DELETE ("/repo/link/" +:+ link_id l) None
                    (Some (link_rev l)) rq)) evs)).
  - apply find_link_spec.
  - intros links. destruct links as [|l0 links].
    + apply segment_bind.
      * split; [constructor|]. intros a b Ha Hb. apply Forall_app; auto.
      * apply spec_print. constructor.
      * intros _. apply spec_ret. constructor.
    + apply handle_links_requests.
  - intros links evs1 ls1 r evs2 ls2 [HF1 Hl] HF2 before rq reply after Heq Hd.
    apply List.app_eq_app in Heq as (mid & [[-> Hmid] | [-> ->]]).
    + destruct mid as [|ev mid]; cbn in Hmid.
      * subst evs2. apply Forall_cons in HF2 as [(l & Hin & _ & Hu & _) _].
        destruct (Hl l Hin) as [Ht Hr]. exists l. rewrite app_nil_r in Hr. auto.
      * injection Hmid as <- _.
        apply Forall_app in HF1 as [_ HF1]. apply Forall_cons in HF1 as [[Hm _] _].
        congruence.
    + apply Forall_app in HF2 as [_ HF2].
      apply Forall_cons in HF2 as [(l & Hin & _ & Hu & _) _].
      destruct (Hl l Hin) as [Ht Hr]. exists l.
      auto using link_returned_app_l.
  - intros e evs ls [HF _]. apply gets_only_justified.
    eapply Forall_impl; [exact HF|].
    intros [rq reply|reply]; cbn; [intros [? _]; auto | auto].
  - intros evs ls [_ []].
Qed.

(** [main] keeps any additive property of trace segments that its three
    phases keep. *)
Lemma main_segment (J : list Event -> Prop) :
  additive J ->
  segment J find_latest_recon ->
  (forall fuel recon_id, segment J (get_found_already_linked_entries fuel recon_id)) ->
  (forall total ie c, segment J (handle_entry (SAMPLE_SIZE =? 0) total ie c)) ->
  forall fuel, segment J (main fuel).
Proof.
  intros HJ Hrecon Hfetch Hentry fuel. unfold main.
  repeat (apply segment_bind; [exact HJ | apply segment_print, HJ | intros _]).
  apply segment_bind; [exact HJ | | intros _].
  { apply spec_ret, HJ. }
  repeat (apply segment_bind; [exact HJ | apply segment_print, HJ | intros _]).
  apply segment_bind; [exact HJ | exact Hrecon | intros recon].
  repeat (apply segment_bind; [exact HJ | apply segment_print, HJ | intros _]).
  destruct (default 0 _ =? 0); [apply segment_print, HJ|].
  apply segment_bind; [exact HJ | apply segment_print, HJ | intros _].
  apply segment_bind; [exact HJ | apply Hfetch | intros entries].
  repeat (apply segment_bind; [exact HJ | apply segment_print, HJ | intros _]).
  destruct entries as [|e0 entries]; [apply segment_print, HJ|].
  apply segment_bind; [exact HJ | | intros r].
  - unfold find_and_delete.
    apply segment_bind; [exact HJ | | intros to_process].
    { unfold select_entries. destruct (0 <? SAMPLE_SIZE).
      - apply segment_bind; [exact HJ | apply segment_print, HJ | intros _].
        apply segment_ret, HJ.
      - destruct (SAMPLE_SIZE =? 0); [|apply segment_ret, HJ].
        apply segment_bind; [exact HJ | apply segment_print, HJ | intros _].
        apply segment_ret, HJ. }
    apply segment_bind; [exact HJ | apply segment_print, HJ | intros _].
    apply segment_bind; [exact HJ | | intros c; apply segment_ret, HJ].
    apply segment_for_in; [exact HJ | apply Hentry].
  - unfold print_summary.
    repeat (apply segment_bind; [exact HJ | apply segment_print, HJ | intros _]).
    apply segment_bind; [exact HJ | | intros _].
    { destruct (0 <? SAMPLE_SIZE); [apply segment_print, HJ | apply segment_ret, HJ]. }
    repeat (apply segment_bind; [exact HJ | apply segment_print, HJ | intros _]).
    destruct (SAMPLE_SIZE =? 0); [|apply segment_ret, HJ].
    apply segment_bind; [exact HJ | apply segment_print, HJ | intros _].
    apply segment_print, HJ.
Qed.

(** ** C1: only links of the configured type are deleted *)

(** C1: every record [find_link] returns has the configured mapping name as
    its link type; and every DELETE request [main] sends addresses, by
    [_id], a record of the configured link type that a link query earlier in
    the same run returned. *)
Theorem only_matching_links_deleted :
  (forall source_id target_id (s : State) links,
     (find_link source_id target_id s).1 = Return links ->
     forall l, l ∈ links -> linkType l = Some MAPPING_NAME) /\
  (forall fuel (s : State), exists evs,
     trace (main fuel s).2 = trace s ++ evs /\ deletes_justified evs).
Proof.
  split.
  - intros source_id target_id s links Hret l Hl.
    destruct (find_link_spec source_id target_id s) as (evs & ls & _ & _ & _ & HD).
    rewrite Hret in HD. apply HD, Hl.
  - intros fuel s.
    destruct (main_segment deletes_justified deletes_justified_additive) with
      (fuel := fuel) (s := s) as (evs & ls & Ht & _ & HJ).
    + eapply segment_weaken; [apply find_latest_recon_gets | apply gets_only_justified].
    + intros fuel' recon_id.
      eapply segment_weaken; [apply fetch_gets | apply gets_only_justified].
    + intros total ie c. apply handle_entry_justified.
    + exists evs. auto.
Qed.

(** ** Which entries the loop of step 4 works on *)

Lemma quiet_ret {A} (a : A) : quiet (ret a).
Proof. apply spec_ret. constructor. Qed.

Lemma quiet_raise {A} (e : exn) : quiet (@raise _ A e).
Proof. apply spec_raise. constructor. Qed.

Lemma quiet_print (l : Line) : is_progress l = false -> quiet (print l).
Proof. intros Hl. apply spec_print. repeat constructor. exact Hl. Qed.

Lemma quiet_bind {A B} (m : M A) (k : A -> M B) :
  quiet m -> (forall a, quiet (k a)) -> quiet (bind m k).
Proof.
  intros Hm Hk.
  apply (spec_bind m k (fun _ _ ls => Forall (fun l => is_progress l = false) ls)
           (fun _ _ _ ls => Forall (fun l => is_progress l = false) ls)); auto.
  intros a evs1 ls1 r evs2 ls2 H1 H2. apply Forall_app; auto.
Qed.

Lemma quiet_for_in {A S} (body : A -> S -> M S) :
  (forall x acc, quiet (body x acc)) -> forall l acc, quiet (for_in l body acc).
Proof.
  intros Hbody l. induction l as [|x l IH]; intros acc; cbn [for_in].
  - apply quiet_ret.
  - apply quiet_bind; auto.
Qed.

Lemma quiet_try_except {A} (m : M A) (h : exn -> M A) :
  quiet m -> (forall e, quiet (h e)) -> quiet (try_except m h).
Proof.
  intros Hm Hh s. destruct (Hm s) as (evs1 & ls1 & Ht1 & Ho1 & H1).
  unfold try_except. destruct (m s) as [[a|e|] s1]; cbn in *.
  - exists evs1, ls1. auto.
  - destruct (is_Exception e).
    + destruct (Hh e s1) as (evs2 & ls2 & Ht2 & Ho2 & H2).
      exists (evs1 ++ evs2), (ls1 ++ ls2).
      rewrite Ht2, Ho2, Ht1, Ho1, !app_assoc. repeat split. apply Forall_app; auto.
    + exists evs1, ls1. auto.
  - exists evs1, ls1. auto.
Qed.

Lemma refresh_quiet : quiet refresh.
Proof.
  intros s. unfold refresh.
  destruct (post_token (world s)) as [[resp|] w]; cbn.
  2: { exists [Refreshed None], []. rewrite app_nil_r. repeat split. constructor. }
  unfold bind, raise_for_status.
  destruct (is_error_status (tk_status_code resp)); cbn.
  { exists [Refreshed (Some resp)], []. rewrite app_nil_r. repeat split. constructor. }
  destruct (tk_json resp) as [data|]; cbn.
  2: { exists [Refreshed (Some resp)], []. rewrite app_nil_r. repeat split. constructor. }
  destruct (access_token data) as [t|]; cbn.
  2: { exists [Refreshed (Some resp)], []. rewrite app_nil_r. repeat split. constructor. }
  exists [Refreshed (Some resp)], [PTokenAcquired (expires_in data)].
  repeat split. repeat constructor.
Qed.

Lemma token_quiet : quiet token.
Proof.
  intros s. unfold token. destruct (truthy (_token s)).
  - exists [], []. cbn. rewrite !app_nil_r. repeat split. constructor.
  - destruct (refresh_quiet s) as (evs & ls & Ht & Ho & H).
    unfold bind. destruct (refresh s) as [[[]|e|] s1]; cbn in *; exists evs, ls; auto.
Qed.

Lemma request_quiet (rq : Request) : quiet (request rq).
Proof.
  intros s. unfold request. destruct (send rq (world s)) as [[resp|] w]; cbn.
  - exists [Sent rq (Some resp)], []. rewrite app_nil_r. repeat split. constructor.
  - exists [Sent rq None], []. rewrite app_nil_r. repeat split. constructor.
Qed.

Lemma do_request_quiet method path params rev : quiet (_do_request method path params rev).
Proof.
  unfold _do_request. generalize (seq 0 2). intros attempts.
  induction attempts as [|attempt rest IH].
  - apply quiet_ret.
  - rewrite do_request_loop_cons.
    apply quiet_bind; [apply token_quiet | intros tok].
    apply quiet_bind; [apply request_quiet | intros resp].
    destruct ((status_code resp =? 401) && (attempt =? 0)%nat).
    + apply quiet_bind; [apply quiet_print; reflexivity | intros _].
      apply quiet_bind; [apply refresh_quiet | intros _]. exact IH.
    + apply quiet_bind; [|intros _].
      * unfold raise_for_status.
        destruct (is_error_status _); [apply quiet_raise | apply quiet_ret].
      * unfold resp_json. destruct (json resp); [apply quiet_ret | apply quiet_raise].
Qed.

Lemma find_link_quiet source_id target_id : quiet (find_link source_id target_id).
Proof.
  unfold find_link. apply quiet_bind; [|intros candidates; apply quiet_ret].
  apply quiet_for_in. intros search_id acc. unfold query_id.
  apply quiet_for_in. intros field acc'. unfold query_field.
  apply quiet_bind; [apply do_request_quiet | intros data].
  apply quiet_bind; [|intros found; apply quiet_ret].
  unfold get_result_links.
  destruct data as [l|result next|[l|]| |]; first [apply quiet_ret | apply quiet_raise].
Qed.

Lemma handle_link_quiet dry_run link c : quiet (handle_link dry_run link c).
Proof.
  unfold handle_link.
  apply quiet_bind; [apply quiet_print; reflexivity | intros _].
  destruct dry_run.
  - apply quiet_bind; [apply quiet_print; reflexivity | intros _; apply quiet_ret].
  - apply quiet_try_except.
    + apply quiet_bind; [apply do_request_quiet | intros _].
      apply quiet_bind; [apply quiet_print; reflexivity | intros _; apply quiet_ret].
    + intros e.
      apply quiet_bind; [apply quiet_print; reflexivity | intros _; apply quiet_ret].
Qed.

Lemma filter_quiet (ls : list Line) :
  Forall (fun l => is_progress l = false) ls -> List.filter is_progress ls = [].
Proof.
  induction 1 as [|l ls Hl _ IH]; [reflexivity|]. cbn. rewrite Hl. exact IH.
Qed.

(** One turn of the loop prints the progress line of its entry, once. *)
Lemma handle_entry_progress dry_run total ie c :
  spec (handle_entry dry_run total ie c)
       (fun _ _ ls => List.filter is_progress ls = [progress_line total ie]).
Proof.
  unfold handle_entry.
  apply (spec_bind _ _
           (fun _ _ ls => ls = [progress_line total ie])
           (fun _ _ _ ls => Forall (fun l => is_progress l = false) ls)).
  - apply spec_print. reflexivity.
  - intros _. apply quiet_bind; [apply find_link_quiet | intros links].
    destruct links as [|l links].
    + apply quiet_bind; [apply quiet_print; reflexivity | intros _; apply quiet_ret].
    + apply quiet_for_in. intros link c'. apply handle_link_quiet.
  - intros [] evs1 ls1 r evs2 ls2 -> Hq.
    rewrite List.filter_app, (filter_quiet _ Hq). reflexivity.
  - intros e evs ls ->. reflexivity.
  - intros evs ls ->. reflexivity.
Qed.

(** A loop that completes has printed the progress lines of its entries, in
    order, and no other. *)
Lemma entries_progress dry_run total (ies : list (nat * ReconEntry)) :
  forall c,
    spec (for_in ies (handle_entry dry_run total) c)
         (fun r _ ls =>
            match r with
            | Return _ => List.filter is_progress ls = map (progress_line total) ies
            | _ => True
            end).
Proof.
  induction ies as [|ie ies IH]; intros c; cbn [for_in].
  - apply spec_ret. reflexivity.
  - apply (spec_bind _ _
             (fun _ _ ls => List.filter is_progress ls = [progress_line total ie])
             (fun _ r _ ls =>
                match r with
                | Return _ => List.filter is_progress ls = map (progress_line total) ies
                | _ => True
                end)).
    + apply handle_entry_progress.
    + intros c'. apply IH.
    + intros c' evs1 ls1 r evs2 ls2 H1 H2. destruct r; auto.
      rewrite List.filter_app, H1, H2. reflexivity.
    + auto.
    + auto.
Qed.

Lemma find_and_delete_progress (entries : list ReconEntry) (s : State) to_process c s' :
  find_and_delete entries s = (Return (to_process, c), s') ->
  exists ls,
    stdout s' = stdout s ++ ls /\
    List.filter is_progress ls
      = map (progress_line (length to_process)) (enumerate 1 to_process).
Proof.
  intros Hrun.
  assert (Hspec : spec (find_and_delete entries)
            (fun r _ ls => forall tp c0, r = Return (tp, c0) ->
               List.filter is_progress ls
                 = map (progress_line (length tp)) (enumerate 1 tp))).
  { unfold find_and_delete.
    apply (spec_bind _ _
             (fun _ _ ls => Forall (fun l => is_progress l = false) ls)
             (fun tp r _ ls => forall tp' c0, r = Return (tp', c0) ->
                List.filter is_progress ls
                  = map (progress_line (length tp')) (enumerate 1 tp'))).
    - unfold select_entries. destruct (0 <? SAMPLE_SIZE).
      + apply quiet_bind; [apply quiet_print; reflexivity | intros _; apply quiet_ret].
      + destruct (SAMPLE_SIZE =? 0); [|apply quiet_ret].
        apply quiet_bind; [apply quiet_print; reflexivity | intros _; apply quiet_ret].
    - intros tp.
      apply (spec_bind _ _ (fun _ _ ls => ls = [PBlank])
               (fun _ r _ ls => forall tp' c0, r = Return (tp', c0) ->
                  List.filter is_progress ls
                    = map (progress_line (length tp')) (enumerate 1 tp'))).
      + apply spec_print. reflexivity.
      + intros _.
        apply (spec_bind _ _
                 (fun r _ ls =>
                    match r with
                    | Return _ => List.filter is_progress ls
                                  = map (progress_line (length tp)) (enumerate 1 tp)
                    | _ => True
                    end)
                 (fun c1 r _ ls => ls = [] /\ r = Return (tp, c1))).
        * apply entries_progress.
        * intros c1. apply spec_ret. auto.
        * intros c1 evs1 ls1 r evs2 ls2 H1 [-> ->] tp' c0 Heq.
          injection Heq as <- _. rewrite app_nil_r. exact H1.
        * intros e evs ls _ tp' c0 Heq. discriminate Heq.
        * intros evs ls _ tp' c0 Heq. discriminate Heq.
      + intros [] evs1 ls1 r evs2 ls2 -> H tp' c0 Heq. cbn. apply (H tp' c0 Heq).
      + intros e evs ls _ tp' c0 Heq. discriminate Heq.
      + intros evs ls _ tp' c0 Heq. discriminate Heq.
    - intros tp evs1 ls1 r evs2 ls2 Hq H tp' c0 Heq.
      rewrite List.filter_app, (filter_quiet _ Hq). apply (H tp' c0 Heq).
    - intros e evs ls _ tp' c0 Heq. discriminate Heq.
    - intros evs ls _ tp' c0 Heq. discriminate Heq. }
  destruct (Hspec s) as (evs & ls & _ & Ho & H).
  rewrite Hrun in Ho, H. exists ls. split; [exact Ho|]. apply (H to_process c eq_refl).
Qed.

(** ** C2, C3, C4: the sample-size modes *)

Lemma handle_links_dry (links : list LinkRecord) :
  forall c s, for_in links (handle_link true) c s = (Return c, listing links s).
Proof.
  induction links as [|l links IH]; intros c s; [reflexivity|].
  cbn [for_in]. unfold bind at 1, handle_link. unfold bind at 1, print.
  unfold bind at 1. cbn [ret]. rewrite IH. reflexivity.
Qed.

Lemma handle_entry_dry total i e c (s s1 : State) links :
  find_link (sourceObjectId e) (targetObjectId e)
    (add_line (PEntry i total (sourceObjectId e) (targetObjectId e)) s)
    = (Return links, s1) ->
  handle_entry true total (i, e) c s =
    match links with
    | [] => (Return (bump_not_found c), add_line PNoLink s1)
    | _ :: _ => (Return c, listing links s1)
    end.
Proof.
  intros Hfind. unfold handle_entry. cbn [fst snd].
  unfold bind at 1, print. unfold bind at 1. rewrite Hfind.
  destruct links as [|l links]; [reflexivity|]. apply handle_links_dry.
Qed.

Lemma listing_cons (l : LinkRecord) (links : list LinkRecord) (s : State) :
  listing (l :: links) s =
  listing links (add_line (PWouldDelete (link_id l))
                   (add_line (PFoundLink (link_id l) (firstId l) (secondId l)) s)).
Proof. reflexivity. Qed.

Lemma listing_frame (links : list LinkRecord) :
  forall s, exists ls,
    stdout (listing links s) = stdout s ++ ls /\ trace (listing links s) = trace s.
Proof.
  induction links as [|l links IH]; intros s.
  - exists []. cbn. rewrite app_nil_r. auto.
  - rewrite listing_cons.
    destruct (IH (add_line (PWouldDelete (link_id l))
                    (add_line (PFoundLink (link_id l) (firstId l) (secondId l)) s)))
      as (ls & Ho & Ht).
    rewrite Ho, Ht. cbn. rewrite <- !app_assoc. eauto.
Qed.

Lemma handle_entry_dry_gets total ie c :
  segment gets_only (handle_entry true total ie c).
Proof.
  pose proof gets_only_additive as HJ. unfold handle_entry.
  apply segment_bind; [exact HJ | apply segment_print, HJ | intros _].
  apply segment_bind; [exact HJ | | intros links].
  - eapply segment_weaken; [eapply segment_client, find_link_spec|].
    intros evs HF. eapply Forall_impl; [exact HF|].
    intros [rq reply|reply]; cbn; [intros [? _]; auto | auto].
  - destruct links as [|l links].
    + apply segment_bind; [exact HJ | apply segment_print, HJ | intros _].
      apply segment_ret, HJ.
    + intros s. rewrite handle_links_dry.
      destruct (listing_frame (l :: links) s) as (ls & Ho & Ht).
      exists [], ls. cbn [fst snd]. rewrite Ho, Ht, app_nil_r.
      repeat split. constructor.
Qed.

Lemma unresolved_cons (links : list LinkRecord) (found : list (list LinkRecord)) :
  unresolved (links :: found) =
  match links with
  | [] => S (unresolved found)
  | _ :: _ => unresolved found
  end.
Proof.
  unfold unresolved. destruct links.
  - rewrite filter_cons_True by reflexivity. reflexivity.
  - rewrite filter_cons_False by discriminate. reflexivity.
Qed.

Lemma resolved_counts total ies (s : State) found s' :
  resolved total ies s found s' ->
  forall c,
    for_in ies (handle_entry true total) c s =
      (Return {| deleted := deleted c; failed := failed c;
                 not_found := not_found c + unresolved found |}, s').
Proof.
  induction 1 as [s | i e rest s links s1 found s' Hfind Hrest IH]; intros c.
  - cbn [for_in ret]. change (unresolved []) with 0%nat.
    rewrite Nat.add_0_r. destruct c; reflexivity.
  - cbn [for_in]. unfold bind at 1. rewrite (handle_entry_dry _ _ _ _ _ _ _ Hfind).
    rewrite unresolved_cons. destruct links as [|l links]; rewrite IH.
    + cbn [bump_not_found deleted failed not_found].
      rewrite Nat.add_succ_r. reflexivity.
    + reflexivity.
Qed.

(** C2: with [SAMPLE_SIZE = 0], every request [main] sends is a GET, so no
    delete call is issued; the links are still resolved: when [find_link]
    succeeds for each fetched entry in turn, step 4 runs over all entries,
    lists the links found for each, and ends with no link counted as deleted
    or failed and with as many entries counted as not found as resolved to
    no link; the summary prints these counters. *)
Theorem dry_run_never_deletes :
  SAMPLE_SIZE = 0 ->
  (forall fuel (s : State), exists evs,
     trace (main fuel s).2 = trace s ++ evs /\ gets_only evs) /\
  (forall entries (s : State) found s',
     resolved (length entries) (enumerate 1 entries)
       (add_line PBlank (add_line (PDryRunMode (length entries)) s)) found s' ->
     find_and_delete entries s =
       (Return (entries, {| deleted := 0; failed := 0; not_found := unresolved found |}),
        s')) /\
  (forall entries to_process c (s : State),
     print_summary entries to_process c s =
       (Return tt,
        add_line PWasDryRun (add_line PBlank
          (add_line (PSummaryFailed (failed c))
             (add_line (PSummaryNotFound (not_found c))
                (add_line (PSummaryDeleted (deleted c))
                   (add_line (PSummaryTotal (length entries))
                      (add_line PRule (add_line PSummary
                         (add_line PRule (add_line PBlank s))))))))))).
Proof.
  intros Hdry. split; [|split].
  - intros fuel s.
    destruct (main_segment gets_only gets_only_additive) with (fuel := fuel) (s := s)
      as (evs & ls & Ht & _ & HJ).
    + apply find_latest_recon_gets.
    + apply fetch_gets.
    + intros total ie c. rewrite Hdry. apply handle_entry_dry_gets.
    + exists evs. auto.
  - intros entries s found s' Hres.
    unfold find_and_delete, select_entries. rewrite Hdry. cbn [Z.ltb Z.compare Z.eqb].
    unfold bind at 1. unfold bind at 1, print. cbn [ret].
    unfold bind at 1. unfold bind at 1.
    rewrite (resolved_counts _ _ _ _ _ Hres). reflexivity.
  - intros entries to_process c s. unfold print_summary. rewrite Hdry. reflexivity.
Qed.

(** C3 (amended): with [SAMPLE_SIZE = 0] the loop of step 4 runs over all
    the fetched entries, resolving the links of each as a dry run; when it
    completes, it has printed the progress line of every fetched entry, in
    fetch order. *)
Theorem dry_run_processes_all_entries (entries : list ReconEntry) (s : State) :
  SAMPLE_SIZE = 0 ->
  select_entries entries s =
    (Return entries, add_line (PDryRunMode (length entries)) s) /\
  find_and_delete entries s =
    (c <- for_in (enumerate 1 entries) (handle_entry true (length entries)) no_counts ;;
     ret (entries, c))
      (add_line PBlank (add_line (PDryRunMode (length entries)) s)) /\
  (forall to_process c s',
     find_and_delete entries s = (Return (to_process, c), s') ->
     to_process = entries /\
     exists ls,
       stdout s' = stdout s ++ ls /\
       List.filter is_progress ls
         = map (progress_line (length entries)) (enumerate 1 entries)).
Proof.
  intros Hdry.
  assert (Hsel : select_entries entries s =
                   (Return entries, add_line (PDryRunMode (length entries)) s)).
  { unfold select_entries. rewrite Hdry. reflexivity. }
  split; [exact Hsel|]. split.
  - unfold find_and_delete, select_entries. rewrite Hdry. reflexivity.
  - intros to_process c s' Hrun.
    assert (to_process = entries) as ->.
    { unfold find_and_delete in Hrun. unfold bind at 1 in Hrun. rewrite Hsel in Hrun.
      unfold bind at 1 in Hrun. cbn [print] in Hrun. unfold bind at 1 in Hrun.
      destruct (for_in _ _ _ _) as [[c1|e|] s1]; unfold ret in Hrun; congruence. }
    split; [reflexivity|]. eapply find_and_delete_progress, Hrun.
Qed.

(** C4: with [SAMPLE_SIZE = N > 0] the loop of step 4 runs over the first
    [N] fetched entries, in fetch order (all of them when there are fewer),
    which are [min N total] entries; when it completes, it has printed the
    progress lines of exactly these entries. *)
Theorem sample_processes_first_entries (entries : list ReconEntry) (s : State) :
  0 < SAMPLE_SIZE ->
  let to_process := take (Z.to_nat SAMPLE_SIZE) entries in
  Z.of_nat (length to_process) = Z.min SAMPLE_SIZE (Z.of_nat (length entries)) /\
  (forall i, to_process !! i =
             if decide (Z.of_nat i < SAMPLE_SIZE) then entries !! i else None) /\
  select_entries entries s =
    (Return to_process,
     add_line (PSampleMode (length to_process) (length entries)) s) /\
  find_and_delete entries s =
    (c <- for_in (enumerate 1 to_process) (handle_entry false (length to_process))
            no_counts ;;
     ret (to_process, c))
      (add_line PBlank
         (add_line (PSampleMode (length to_process) (length entries)) s)) /\
  (forall processed c s',
     find_and_delete entries s = (Return (processed, c), s') ->
     processed = to_process /\
     exists ls,
       stdout s' = stdout s ++ ls /\
       List.filter is_progress ls
         = map (progress_line (length to_process)) (enumerate 1 to_process)).
Proof.
  intros Hpos to_process.
  assert (Hsel : select_entries entries s =
            (Return to_process,
             add_line (PSampleMode (length to_process) (length entries)) s)).
  { unfold select_entries.
    replace (0 <? SAMPLE_SIZE) with true by (symmetry; apply Z.ltb_lt; exact Hpos).
    reflexivity. }
  split; [|split; [|split; [exact Hsel|split]]]; cycle 3.
  { intros processed c s' Hrun.
    assert (processed = to_process) as ->.
    { unfold find_and_delete in Hrun. unfold bind at 1 in Hrun. rewrite Hsel in Hrun.
      unfold bind at 1 in Hrun. cbn [print] in Hrun. unfold bind at 1 in Hrun.
      destruct (for_in _ _ _ _) as [[c1|e|] s1]; unfold ret in Hrun; congruence. }
    split; [reflexivity|]. eapply find_and_delete_progress, Hrun. }
  - unfold to_process. rewrite length_take. lia.
  - intros i. unfold to_process. destruct (decide (Z.of_nat i < SAMPLE_SIZE)).
    + apply lookup_take_lt. lia.
    + apply lookup_take_ge. lia.
  - unfold find_and_delete, select_entries.
    replace (0 <? SAMPLE_SIZE) with true by (symmetry; apply Z.ltb_lt; exact Hpos).
    replace (SAMPLE_SIZE =? 0) with false by (symmetry; apply Z.eqb_neq; lia).
    reflexivity.
Qed.

End Proofs.

(** * Further properties of the script *)

Section Coverage.
Context `{E : Env}.
Local Open Scope py_scope.

(** ** The API client *)

Lemma count_sent_app (a b : list Event) :
  count_sent (a ++ b) = (count_sent a + count_sent b)%nat.
Proof. unfold count_sent. rewrite List.filter_app, length_app. reflexivity. Qed.

Lemma count_sent_none (evs : list Event) :
  Forall (sent_with (fun _ => False)) evs -> count_sent evs = 0%nat.
Proof.
  induction 1 as [|ev evs Hev _ IH]; [reflexivity|].
  destruct ev as [rq reply|reply]; [destruct Hev|]. exact IH.
Qed.

Lemma token_sends_nothing : spec token (fun _ evs _ => count_sent evs = 0%nat).
Proof.
  eapply spec_weaken; [apply (token_spec (fun _ => False))|].
  intros r evs ls [HF _]. apply count_sent_none, HF.
Qed.

Lemma refresh_sends_nothing : spec refresh (fun _ evs _ => count_sent evs = 0%nat).
Proof.
  eapply spec_weaken; [apply (refresh_spec (fun _ => False))|].
  intros r evs ls [HF _]. apply count_sent_none, HF.
Qed.

Lemma request_sends_one (rq : Request) :
  spec (request rq) (fun _ evs _ => count_sent evs = 1%nat).
Proof.
  intros s. unfold request. destruct (send rq (world s)) as [[resp|] w]; cbn.
  - exists [Sent rq (Some resp)], []. rewrite app_nil_r. auto.
  - exists [Sent rq None], []. rewrite app_nil_r. auto.
Qed.

Lemma do_request_loop_bound (attempts : list nat) method path params rev :
  spec (_do_request_loop attempts method path params rev)
       (fun _ evs _ => (count_sent evs <= length attempts)%nat).
Proof.
  induction attempts as [|attempt rest IH].
  - apply spec_ret. cbn. lia.
  - rewrite do_request_loop_cons.
    apply (spec_bind _ _ (fun _ evs _ => count_sent evs = 0%nat)
             (fun _ _ evs _ => (count_sent evs <= S (length rest))%nat)).
    + apply token_sends_nothing.
    + intros tok.
      apply (spec_bind _ _ (fun _ evs _ => count_sent evs = 1%nat)
               (fun _ _ evs _ => (count_sent evs <= length rest)%nat)).
      * apply request_sends_one.
      * intros resp. destruct ((status_code resp =? 401) && (attempt =? 0)%nat).
        -- apply (spec_bind _ _ (fun _ evs _ => count_sent evs = 0%nat)
                    (fun _ _ evs _ => (count_sent evs <= length rest)%nat)).
           ++ apply spec_print. reflexivity.
           ++ intros _.
              apply (spec_bind _ _ (fun _ evs _ => count_sent evs = 0%nat)
                       (fun _ _ evs _ => (count_sent evs <= length rest)%nat)).
              ** apply refresh_sends_nothing.
              ** intros _. exact IH.
              ** intros a evs1 ls1 r evs2 ls2 H1 H2. rewrite count_sent_app. lia.
              ** intros e evs ls H. lia.
              ** intros evs ls H. lia.
           ++ intros a evs1 ls1 r evs2 ls2 H1 H2. rewrite count_sent_app. lia.
           ++ intros e evs ls H. lia.
           ++ intros evs ls H. lia.
        -- apply (spec_bind _ _ (fun _ evs _ => count_sent evs = 0%nat)
                    (fun _ _ evs _ => count_sent evs = 0%nat)).
           ++ unfold raise_for_status.
              destruct (is_error_status _); [apply spec_raise | apply spec_ret]; reflexivity.
           ++ intros _. unfold resp_json.
              destruct (json resp); [apply spec_ret | apply spec_raise]; reflexivity.
           ++ intros a evs1 ls1 r evs2 ls2 H1 H2. rewrite count_sent_app. lia.
           ++ intros e evs ls H. lia.
           ++ intros evs ls H. lia.
      * intros a evs1 ls1 r evs2 ls2 H1 H2. rewrite count_sent_app. lia.
      * intros e evs ls H. cbn. lia.
      * intros evs ls H. cbn. lia.
    + intros a evs1 ls1 r evs2 ls2 H1 H2. rewrite count_sent_app. cbn. lia.
    + intros e evs ls H. cbn. lia.
    + intros evs ls H. cbn. lia.
Qed.

Lemma answered_counts (P : Request -> Prop) data evs :
  answered P data evs -> (1 <= count_sent evs)%nat.
Proof.
  intros (rq & resp & Hin & _). apply list_elem_of_split in Hin as (a & b & ->).
  rewrite count_sent_app. cbn. lia.
Qed.

(** X1: whatever the tenant answers, one API call exchanges at most two
    requests with it, all of the shape the call was made with; a call that
    returns a body has exchanged at least one. *)
Theorem api_call_sends_at_most_two_requests method path params rev (s : State) :
  exists evs,
    trace (_do_request method path params rev s).2 = trace s ++ evs /\
    (count_sent evs <= 2)%nat /\
    Forall (sent_with (request_shape method path params rev)) evs /\
    (forall data, (_do_request method path params rev s).1 = Return data ->
       (1 <= count_sent evs)%nat).
Proof.
  destruct (do_request_spec method path params rev s) as (evs & ls & Ht & _ & HF & HD).
  destruct (do_request_loop_bound (seq 0 2) method path params rev s)
    as (evs' & ls' & Ht' & _ & Hle).
  fold (_do_request method path params rev) in Ht', Hle.
  rewrite Ht in Ht'. apply app_inv_head in Ht'. subst evs'.
  exists evs. split; [exact Ht|]. split; [exact Hle|]. split; [exact HF|].
  intros data Hret. rewrite Hret in HD. eapply answered_counts, HD.
Qed.

(** ** The credential provider *)

Lemma refresh_failed (s : State) (e : exn) :
  refresh_error (post_token (world s)).1 = Some e ->
  refresh s =
    (Raise e, record (Refreshed (post_token (world s)).1) (post_token (world s)).2 s).
Proof.
  unfold refresh, refresh_error. destruct (post_token (world s)) as [[resp|] w]; cbn.
  2: { intros [= <-]. reflexivity. }
  unfold bind, raise_for_status.
  destruct (is_error_status (tk_status_code resp)); cbn.
  { intros [= <-]. reflexivity. }
  destruct (tk_json resp) as [data|]; cbn.
  2: { intros [= <-]. reflexivity. }
  destruct (access_token data) as [t|]; cbn.
  - discriminate.
  - intros [= <-]. reflexivity.
Qed.

Lemma refresh_succeeded (s : State) :
  refresh_error (post_token (world s)).1 = None ->
  exists resp data t,
    (post_token (world s)).1 = Some resp /\ tk_json resp = Some data /\
    access_token data = Some t /\
    refresh s =
      (Return tt,
       add_line (PTokenAcquired (expires_in data))
         (set_token (Some t)
            (record (Refreshed (Some resp)) (post_token (world s)).2 s))).
Proof.
  unfold refresh, refresh_error. destruct (post_token (world s)) as [[resp|] w]; cbn.
  2: discriminate.
  unfold bind, raise_for_status.
  destruct (is_error_status (tk_status_code resp)); cbn; [discriminate|].
  destruct (tk_json resp) as [data|] eqn:Hj; cbn; [|discriminate].
  destruct (access_token data) as [t|] eqn:Ha; cbn; [|discriminate].
  intros _. exists resp, data, t. repeat split; auto.
Qed.

(** X2: [refresh] exchanges exactly one message with the token endpoint and
    sends nothing to the API.  When the exchange fails (no reply, a 4xx or
    5xx status, a body that is not JSON, or no [access_token] in it), it
    raises and leaves the cached token and the output as they were; when it
    succeeds, the cached token is the [access_token] of the reply. *)
Theorem refresh_replaces_token_only_on_success (s : State) :
  let reply := (post_token (world s)).1 in
  let r := refresh s in
  trace r.2 = trace s ++ [Refreshed reply] /\
  match refresh_error reply with
  | Some e => r.1 = Raise e /\ _token r.2 = _token s /\ stdout r.2 = stdout s
  | None =>
      r.1 = Return tt /\
      is_Some (_token r.2) /\
      _token r.2 = (reply ≫= tk_json) ≫= access_token
  end.
Proof.
  intros reply r. unfold r. destruct (refresh_error reply) as [e|] eqn:Herr.
  - rewrite (refresh_failed s e Herr). cbn. auto.
  - destruct (refresh_succeeded s Herr) as (resp & data & t & Hreply & Hj & Ha & ->).
    cbn. split; [unfold reply; rewrite Hreply; reflexivity|].
    split; [reflexivity|]. split; [eexists; reflexivity|].
    unfold reply. rewrite Hreply. cbn. rewrite Hj. cbn. rewrite Ha. reflexivity.
Qed.

(** X3: when the first reply is 401 and the refresh that follows fails, the
    call raises the error of the refresh: the request is not sent again,
    and the cached token stays the rejected one. *)
Theorem rejected_call_not_retried_when_refresh_fails method path params rev
    (s s0 : State) (tok : string) (resp1 : Response) (w1 : World) (e : exn) :
  let rq := {| rq_method := method; rq_url := BASE_URL +:+ path;
               rq_headers := request_headers tok rev; rq_params := params |} in
  token s = (Return tok, s0) ->
  send rq (world s0) = (Some resp1, w1) ->
  status_code resp1 = 401 ->
  refresh_error (post_token w1).1 = Some e ->
  let s' := record (Refreshed (post_token w1).1) (post_token w1).2
              (add_line PTokenExpired (record (Sent rq (Some resp1)) w1 s0)) in
  _do_request method path params rev s = (Raise e, s') /\
  trace s' = trace s0 ++ [Sent rq (Some resp1); Refreshed (post_token w1).1] /\
  _token s' = _token s0.
Proof.
  intros rq Htok Hsend H401 Herr s'. split; [|split].
  - unfold _do_request. change (seq 0 2) with [0; 1]%nat.
    rewrite do_request_loop_cons. unfold bind at 1. rewrite Htok.
    unfold bind at 1, request. fold rq. rewrite Hsend.
    rewrite H401. cbn [Z.eqb Pos.eqb Nat.eqb andb].
    unfold bind at 1, print. unfold bind at 1.
    rewrite (refresh_failed _ e) by exact Herr. reflexivity.
  - cbn. rewrite <- !app_assoc. reflexivity.
  - reflexivity.
Qed.

(** ** Headers *)

Lemma if_match_headers (tok : string) (rev : option string) (rq : Request) :
  rq_headers rq = request_headers tok rev ->
  if_match rq = if truthy rev then [py_str rev] else [].
Proof.
  intros Hh. unfold if_match. rewrite Hh. unfold request_headers, HEADERS.
  destruct (truthy rev); reflexivity.
Qed.

(** X4: every request of [api_delete] is a DELETE of the given path without
    query parameters; it carries the revision as its only [If-Match]
    precondition when the revision is a non-empty string, and no
    precondition at all when the revision is empty.  A request of
    [api_get] never carries one. *)
Theorem delete_is_conditional_on_revision (path rev : string) (s : State) :
  (exists evs,
     trace (api_delete path rev s).2 = trace s ++ evs /\
     Forall (sent_with (fun rq =>
               rq_method rq = DELETE /\ rq_url rq = BASE_URL +:+ path /\
               rq_params rq = None /\
               if_match rq = if String.eqb rev EmptyString then [] else [rev])) evs) /\
  (forall params, exists evs,
     trace (api_get path params s).2 = trace s ++ evs /\
     Forall (sent_with (fun rq => rq_method rq = GET /\ if_match rq = [])) evs).
Proof.
  split.
  - destruct (do_request_spec DELETE path None (Some rev) s) as (evs & ls & Ht & _ & HF & _).
    exists evs. split; [exact Ht|]. eapply Forall_impl; [exact HF|].
    intros [rq reply|reply]; cbn; [|auto].
    intros (Hm & Hu & Hp & tok & Hh). repeat split; auto.
    rewrite (if_match_headers tok (Some rev) rq Hh). cbn.
    destruct (String.eqb rev EmptyString); reflexivity.
  - intros params.
    destruct (do_request_spec GET path params None s) as (evs & ls & Ht & _ & HF & _).
    exists evs. split; [exact Ht|]. eapply Forall_impl; [exact HF|].
    intros [rq reply|reply]; cbn; [|auto].
    intros (Hm & _ & _ & tok & Hh). split; [exact Hm|].
    rewrite (if_match_headers tok None rq Hh). reflexivity.
Qed.

(** ** Properties every request of a run has *)

Lemma sent_with_additive (P : Request -> Prop) : additive (Forall (sent_with P)).
Proof. split; [constructor|]. intros a b Ha Hb. apply Forall_app; auto. Qed.

Lemma segment_try_except {A} J (m : M A) (h : exn -> M A) :
  additive J -> segment J m -> (forall e, segment J (h e)) -> segment J (try_except m h).
Proof.
  intros [Hnil Happ] Hm Hh s. destruct (Hm s) as (evs1 & ls1 & Ht1 & Ho1 & H1).
  unfold try_except. destruct (m s) as [[a|e|] s1]; cbn in *.
  - exists evs1, ls1. auto.
  - destruct (is_Exception e).
    + destruct (Hh e s1) as (evs2 & ls2 & Ht2 & Ho2 & H2).
      exists (evs1 ++ evs2), (ls1 ++ ls2).
      rewrite Ht2, Ho2, Ht1, Ho1, !app_assoc. auto.
    + exists evs1, ls1. auto.
  - exists evs1, ls1. auto.
Qed.

Section Uniform.
Variable P : Request -> Prop.
Hypothesis calls :
  forall method path params rev,
    segment (Forall (sent_with P)) (_do_request method path params rev).

Lemma find_latest_recon_uniform : segment (Forall (sent_with P)) find_latest_recon.
Proof.
  pose proof (sent_with_additive P) as HJ. unfold find_latest_recon.
  apply segment_bind; [exact HJ | apply calls | intros data].
  apply segment_bind; [exact HJ | | intros all].
  - unfold get_reconciliations.
    destruct data as [[l|]| | | |]; first [apply segment_ret | apply segment_raise]; exact HJ.
  - destruct (filter _ all).
    + apply segment_bind; [exact HJ | apply segment_print, HJ | intros _].
      apply segment_raise, HJ.
    + destruct (sort_started_desc _); [apply segment_raise | apply segment_ret]; exact HJ.
Qed.

Lemma fetch_uniform fuel recon_id :
  segment (Forall (sent_with P)) (get_found_already_linked_entries fuel recon_id).
Proof.
  pose proof (sent_with_additive P) as HJ. unfold get_found_already_linked_entries.
  generalize (@nil ReconEntry) (@None string) 0%nat.
  induction fuel as [|fuel IH]; intros entries cookie page.
  - intros s. exists [], []. cbn. rewrite !app_nil_r. repeat split. constructor.
  - cbn [fetch_loop].
    apply segment_bind; [exact HJ | apply calls | intros data].
    apply segment_bind; [exact HJ | | intros batch].
    { unfold get_result_entries.
      destruct data as [l|[l|] next|l| |];
        first [apply segment_ret | apply segment_raise]; exact HJ. }
    apply segment_bind; [exact HJ | apply segment_print, HJ | intros _].
    apply segment_bind; [exact HJ | | intros cookie'].
    { unfold get_pagedResultsCookie.
      destruct data as [l|result next|l| |];
        first [apply segment_ret | apply segment_raise]; exact HJ. }
    destruct (negb (truthy cookie') || (length batch =? 0)%nat);
      [apply segment_ret, HJ | apply IH].
Qed.

Lemma find_link_uniform source_id target_id :
  segment (Forall (sent_with P)) (find_link source_id target_id).
Proof.
  pose proof (sent_with_additive P) as HJ. unfold find_link.
  apply segment_bind; [exact HJ | | intros candidates; apply segment_ret, HJ].
  apply segment_for_in; [exact HJ|]. intros search_id acc. unfold query_id.
  apply segment_for_in; [exact HJ|]. intros field acc'. unfold query_field.
  apply segment_bind; [exact HJ | apply calls | intros data].
  apply segment_bind; [exact HJ | | intros found; apply segment_ret, HJ].
  unfold get_result_links.
  destruct data as [l|result next|[l|]| |];
    first [apply segment_ret | apply segment_raise]; exact HJ.
Qed.

Lemma handle_link_uniform dry_run link c :
  segment (Forall (sent_with P)) (handle_link dry_run link c).
Proof.
  pose proof (sent_with_additive P) as HJ. unfold handle_link.
  apply segment_bind; [exact HJ | apply segment_print, HJ | intros _].
  destruct dry_run.
  - apply segment_bind; [exact HJ | apply segment_print, HJ | intros _].
    apply segment_ret, HJ.
  - apply segment_try_except; [exact HJ | | intros e].
    + apply segment_bind; [exact HJ | apply calls | intros _].
      apply segment_bind; [exact HJ | apply segment_print, HJ | intros _].
      apply segment_ret, HJ.
    + apply segment_bind; [exact HJ | apply segment_print, HJ | intros _].
      apply segment_ret, HJ.
Qed.

Lemma handle_entry_uniform dry_run total ie c :
  segment (Forall (sent_with P)) (handle_entry dry_run total ie c).
Proof.
  pose proof (sent_with_additive P) as HJ. unfold handle_entry.
  apply segment_bind; [exact HJ | apply segment_print, HJ | intros _].
  apply segment_bind; [exact HJ | apply find_link_uniform | intros links].
  destruct links as [|l links].
  - apply segment_bind; [exact HJ | apply segment_print, HJ | intros _].
    apply segment_ret, HJ.
  - apply segment_for_in; [exact HJ|]. intros link c'. apply handle_link_uniform.
Qed.

Lemma main_uniform fuel : segment (Forall (sent_with P)) (main fuel).
Proof.
  apply main_segment.
  - apply sent_with_additive.
  - apply find_latest_recon_uniform.
  - intros fuel' recon_id. apply fetch_uniform.
  - intros total ie c. apply handle_entry_uniform.
Qed.

End Uniform.

Lemma request_shape_well_formed method path params rev (rq : Request) :
  request_shape method path params rev rq -> well_formed rq.
Proof.
  intros (_ & Hu & _ & tok & Hh). split; [eauto|]. rewrite Hh.
  unfold request_headers, HEADERS. split; [|split; [|exists tok]].
  - apply elem_of_app. left. apply elem_of_app. left.
    apply elem_of_cons. left. reflexivity.
  - apply elem_of_app. left. apply elem_of_app. left.
    apply elem_of_cons. right. apply elem_of_cons. left. reflexivity.
  - apply elem_of_app. left. apply elem_of_app. right.
    apply elem_of_cons. left. reflexivity.
Qed.

(** X5: whatever the tenant answers and however the run ends, every request
    [main] sends goes to a path under the tenant's base URL and carries the
    API-version header, the JSON content type and a bearer credential. *)
Theorem every_request_is_authenticated (fuel : nat) (s : State) :
  exists evs,
    trace (main fuel s).2 = trace s ++ evs /\
    Forall (sent_with well_formed) evs.
Proof.
  destruct (main_uniform well_formed) with (fuel := fuel) (s := s)
    as (evs & ls & Ht & _ & HF).
  - intros method path params rev.
    eapply segment_weaken; [eapply segment_client, do_request_spec|].
    intros evs HF. eapply Forall_impl; [exact HF|].
    intros [rq reply|reply]; cbn; [apply request_shape_well_formed | auto].
  - exists evs. auto.
Qed.

(** X6: the three lookups never delete: every request that
    [find_latest_recon], [get_found_already_linked_entries] and [find_link]
    send is a GET, whatever the replies. *)
Theorem lookups_never_delete (s : State) :
  (exists evs, trace (find_latest_recon s).2 = trace s ++ evs /\ gets_only evs) /\
  (forall fuel recon_id, exists evs,
     trace (get_found_already_linked_entries fuel recon_id s).2 = trace s ++ evs /\
     gets_only evs) /\
  (forall source_id target_id, exists evs,
     trace (find_link source_id target_id s).2 = trace s ++ evs /\ gets_only evs).
Proof.
  split; [|split].
  - destruct (find_latest_recon_gets s) as (evs & ls & Ht & _ & H). eauto.
  - intros fuel recon_id.
    destruct (fetch_gets fuel recon_id s) as (evs & ls & Ht & _ & H). eauto.
  - intros source_id target_id.
    destruct (find_link_spec source_id target_id s) as (evs & ls & Ht & _ & HF & _).
    exists evs. split; [exact Ht|]. eapply Forall_impl; [exact HF|].
    intros [rq reply|reply]; cbn; [intros [? _]; auto | auto].
Qed.

(** ** Resolution of an entry *)

Lemma truthy_iff (o : option string) (id : string) :
  o = Some id -> (truthy o = true <-> id <> EmptyString).
Proof.
  intros ->. cbn. destruct (String.eqb_spec id EmptyString) as [->|Hne]; cbn.
  - split; [discriminate | congruence].
  - split; auto.
Qed.

Lemma search_ids_spec (source_id target_id : option string) :
  NoDup (search_ids source_id target_id) /\
  (length (search_ids source_id target_id) <= 2)%nat /\
  forall id, id ∈ search_ids source_id target_id <->
             id <> EmptyString /\ (source_id = Some id \/ target_id = Some id).
Proof.
  unfold search_ids.
  destruct (truthy source_id) eqn:Hs, (truthy target_id) eqn:Ht.
  - destruct (truthy_Some _ Hs) as (a & -> & Ha), (truthy_Some _ Ht) as (b & -> & Hb).
    rewrite filter_cons_True by exact Hs. rewrite filter_cons_True by exact Ht.
    rewrite filter_nil. destruct (decide (a = b)) as [<-|Hab].
    + split; [apply NoDup_singleton|]. split; [cbn; lia|].
      intros id. rewrite list_elem_of_singleton. split.
      * intros ->. auto.
      * intros [_ [[= ->] | [= ->]]]; reflexivity.
    + assert (Hnd : NoDup [a; b]).
      { apply NoDup_cons. split; [|apply NoDup_singleton].
        intros Hin. apply list_elem_of_singleton in Hin. contradiction. }
      assert (Hnd' : NoDup [b; a]).
      { apply NoDup_cons. split; [|apply NoDup_singleton].
        intros Hin. apply list_elem_of_singleton in Hin. congruence. }
      destruct (set_order a b).
      * split; [exact Hnd'|]. split; [cbn; lia|].
        intros id. rewrite !elem_of_cons, elem_of_nil. split.
        -- intros [->|[->|[]]]; auto.
        -- intros [_ [[= ->] | [= ->]]]; auto.
      * split; [exact Hnd|]. split; [cbn; lia|].
        intros id. rewrite !elem_of_cons, elem_of_nil. split.
        -- intros [->|[->|[]]]; auto.
        -- intros [_ [[= ->] | [= ->]]]; auto.
  - destruct (truthy_Some _ Hs) as (a & -> & Ha).
    rewrite filter_cons_True by exact Hs. rewrite filter_cons_False by congruence.
    rewrite filter_nil. split; [apply NoDup_singleton|]. split; [cbn; lia|].
    intros id. rewrite list_elem_of_singleton. split.
    + intros ->. auto.
    + intros [Hid [[= ->] | ->]]; [reflexivity|].
      apply (truthy_iff (Some id) id eq_refl) in Hid. congruence.
  - destruct (truthy_Some _ Ht) as (b & -> & Hb).
    rewrite filter_cons_False by congruence. rewrite filter_cons_True by exact Ht.
    rewrite filter_nil. split; [apply NoDup_singleton|]. split; [cbn; lia|].
    intros id. rewrite list_elem_of_singleton. split.
    + intros ->. auto.
    + intros [Hid [-> | [= ->]]]; [|reflexivity].
      apply (truthy_iff (Some id) id eq_refl) in Hid. congruence.
  - rewrite filter_cons_False by congruence. rewrite filter_cons_False by congruence.
    rewrite filter_nil. split; [apply NoDup_nil_2|]. split; [cbn; lia|].
    intros id. rewrite elem_of_nil. split; [intros []|].
    intros [Hid [-> | ->]];
      apply (truthy_iff (Some id) id eq_refl) in Hid; congruence.
Qed.

(** X7: the ids [find_link] searches are exactly the non-empty ids among
    the source and target id of the entry, each once: an absent or empty id
    is left out, and an id that is both source and target is searched a
    single time. *)
Theorem search_ids_are_the_populated_ids (source_id target_id : option string) :
  NoDup (search_ids source_id target_id) /\
  (length (search_ids source_id target_id) <= 2)%nat /\
  forall id, id ∈ search_ids source_id target_id <->
             id <> EmptyString /\ (source_id = Some id \/ target_id = Some id).
Proof. apply search_ids_spec. Qed.

Lemma segment_for_in_elem {A S} J (l : list A) (body : A -> S -> M S) :
  additive J -> (forall x acc, x ∈ l -> segment J (body x acc)) ->
  forall acc, segment J (for_in l body acc).
Proof.
  intros HJ. induction l as [|x l IH]; intros Hbody acc; cbn [for_in].
  - apply segment_ret, HJ.
  - apply segment_bind; [exact HJ | apply Hbody, elem_of_cons; auto | intros acc'].
    apply IH. intros y acc'' Hy. apply Hbody, elem_of_cons; auto.
Qed.

(** X8: every request [find_link] sends is a query of the link store
    on [firstId] or on [secondId] for a non-empty id that is the source or
    the target id of the entry: it never queries for an empty or absent id,
    nor on another field. *)
Theorem find_link_queries_only_populated_ids (source_id target_id : option string)
    (s : State) :
  exists evs,
    trace (find_link source_id target_id s).2 = trace s ++ evs /\
    Forall (sent_with (fun rq =>
              exists field id,
                (field = "firstId" \/ field = "secondId") /\
                id <> EmptyString /\
                (source_id = Some id \/ target_id = Some id) /\
                link_request field id rq)) evs.
Proof.
  set (P := fun rq : Request =>
              exists field id,
                (field = "firstId" \/ field = "secondId") /\
                id <> EmptyString /\
                (source_id = Some id \/ target_id = Some id) /\
                link_request field id rq).
  assert (Hseg : segment (Forall (sent_with P)) (find_link source_id target_id)).
  { pose proof (sent_with_additive P) as HJ. unfold find_link.
    apply segment_bind; [exact HJ | | intros candidates; apply segment_ret, HJ].
    apply segment_for_in_elem; [exact HJ|]. intros search_id acc Hid.
    apply (search_ids_spec source_id target_id) in Hid as [Hne Hst].
    unfold query_id.
    apply segment_for_in_elem; [exact HJ|]. intros field acc' Hfield.
    unfold query_field.
    apply segment_bind; [exact HJ | | intros data].
    - eapply segment_weaken; [eapply segment_client, api_get_spec|].
      intros evs HF. eapply Forall_impl; [exact HF|].
      intros [rq reply|reply]; cbn; [|auto].
      intros (Hm & Hu & Hp & _). exists field, search_id.
      split; [|split; [exact Hne | split; [exact Hst | repeat split; auto]]].
      apply elem_of_cons in Hfield as [->|Hfield]; [auto|].
      apply list_elem_of_singleton in Hfield. auto.
    - apply segment_bind; [exact HJ | | intros found; apply segment_ret, HJ].
      unfold get_result_links.
      destruct data as [l|result next|[l|]| |];
        first [apply segment_ret | apply segment_raise]; exact HJ. }
  destruct (Hseg s) as (evs & ls & Ht & _ & HF). exists evs. auto.
Qed.

(** ** Deduplication *)

Lemma unique_by_id_fresh (candidates : list LinkRecord) :
  forall seen c, c ∈ unique_by_id seen candidates -> link_id c ∉ seen.
Proof.
  induction candidates as [|x l IH]; intros seen c Hc; cbn in Hc.
  - apply elem_of_nil in Hc. destruct Hc.
  - destruct (decide (link_id x ∈ seen)) as [Hx|Hx].
    + eapply IH, Hc.
    + apply elem_of_cons in Hc as [->|Hc]; [exact Hx|].
      apply IH in Hc. intros Hin. apply Hc, elem_of_union. auto.
Qed.

Lemma unique_by_id_NoDup (candidates : list LinkRecord) :
  forall seen, NoDup (link_id <$> unique_by_id seen candidates).
Proof.
  induction candidates as [|x l IH]; intros seen; cbn.
  - apply NoDup_nil_2.
  - destruct (decide (link_id x ∈ seen)) as [Hx|Hx]; [apply IH|].
    cbn. apply NoDup_cons. split; [|apply IH].
    intros Hin. apply list_elem_of_fmap in Hin as (c & Hid & Hc).
    apply unique_by_id_fresh in Hc. apply Hc, elem_of_union. left.
    apply elem_of_singleton. congruence.
Qed.

Lemma unique_by_id_covers (candidates : list LinkRecord) :
  forall seen c,
    c ∈ candidates -> link_id c ∉ seen ->
    exists c', c' ∈ unique_by_id seen candidates /\ link_id c' = link_id c.
Proof.
  induction candidates as [|x l IH]; intros seen c Hc Hseen; cbn.
  - apply elem_of_nil in Hc. destruct Hc.
  - destruct (decide (link_id x ∈ seen)) as [Hx|Hx].
    + apply elem_of_cons in Hc as [->|Hc]; [contradiction|]. apply IH; auto.
    + destruct (decide (link_id x = link_id c)) as [Heq|Hneq].
      * exists x. split; [apply elem_of_cons; auto | exact Heq].
      * apply elem_of_cons in Hc as [->|Hc]; [congruence|].
        destruct (IH ({[link_id x]} ∪ seen) c Hc) as (c' & Hc' & Hid).
        -- intros Hin. apply elem_of_union in Hin as [Hin|Hin]; [|contradiction].
           apply elem_of_singleton in Hin. congruence.
        -- exists c'. split; [apply elem_of_cons; auto | exact Hid].
Qed.

Lemma unique_by_id_first (candidates : list LinkRecord) :
  forall seen c,
    c ∈ unique_by_id seen candidates ->
    exists before after,
      candidates = before ++ c :: after /\
      forall x, x ∈ before -> link_id x <> link_id c.
Proof.
  induction candidates as [|x l IH]; intros seen c Hc; cbn in Hc.
  - apply elem_of_nil in Hc. destruct Hc.
  - destruct (decide (link_id x ∈ seen)) as [Hx|Hx].
    + pose proof (unique_by_id_fresh _ _ _ Hc) as Hfresh.
      destruct (IH seen c Hc) as (before & after & -> & Hb).
      exists (x :: before), after. split; [reflexivity|].
      intros y Hy. apply elem_of_cons in Hy as [->|Hy]; [congruence | auto].
    + apply elem_of_cons in Hc as [->|Hc].
      * exists [], l. split; [reflexivity|]. intros y Hy.
        apply elem_of_nil in Hy. destruct Hy.
      * pose proof (unique_by_id_fresh _ _ _ Hc) as Hfresh.
        destruct (IH _ c Hc) as (before & after & -> & Hb).
        exists (x :: before), after. split; [reflexivity|].
        intros y Hy. apply elem_of_cons in Hy as [->|Hy]; [|auto].
        intros Heq. apply Hfresh, elem_of_union. left.
        apply elem_of_singleton. congruence.
Qed.

(** X9: the deduplication of [find_link] keeps, for every [_id] among
    the candidates, exactly one record, and that is the first candidate
    with this [_id]; the order of the kept records is that of the
    candidates. *)
Theorem deduplication_keeps_first_of_each_id (candidates : list LinkRecord) :
  let unique := unique_by_id ∅ candidates in
  NoDup (link_id <$> unique) /\
  unique `sublist_of` candidates /\
  (forall c, c ∈ candidates -> exists c', c' ∈ unique /\ link_id c' = link_id c) /\
  (forall c, c ∈ unique ->
     exists before after,
       candidates = before ++ c :: after /\
       forall x, x ∈ before -> link_id x <> link_id c).
Proof.
  intros unique. split; [apply unique_by_id_NoDup|]. split; [|split].
  - unfold unique. generalize (∅ : gset string).
    induction candidates as [|x l IH]; intros seen; cbn; [constructor|].
    destruct (decide (link_id x ∈ seen)).
    + apply sublist_cons, IH.
    + apply sublist_skip, IH.
  - intros c Hc. apply unique_by_id_covers; [exact Hc | apply not_elem_of_empty].
  - intros c Hc. eapply unique_by_id_first, Hc.
Qed.

(** X10: the links [find_link] returns have pairwise distinct [_id]s,
    even when several of the queries return the same record: no link is
    handed to the delete loop twice for one entry. *)
Theorem find_link_returns_distinct_ids (source_id target_id : option string)
    (s : State) (links : list LinkRecord) :
  (find_link source_id target_id s).1 = Return links ->
  NoDup (link_id <$> links) /\ NoDup links.
Proof.
  intros Hret.
  assert (Hnd : NoDup (link_id <$> links)).
  { unfold find_link, bind in Hret.
    destruct (for_in (search_ids source_id target_id) query_id [] s)
      as [[candidates|e|] s1]; cbn in Hret; try discriminate.
    injection Hret as <-.
    eapply sublist_NoDup; [apply (unique_by_id_NoDup candidates ∅)|].
    apply fmap_sublist, sublist_filter. }
  split; [exact Hnd | eapply NoDup_fmap_1, Hnd].
Qed.

(** ** The choice of the reconciliation run *)

(** The head of the sorted list is the first of the runs with a greatest
    key: every run listed before it has a strictly smaller key. *)
Lemma sort_started_desc_first (recons : list Recon) :
  match sort_started_desc recons with
  | [] => recons = []
  | latest :: _ =>
      exists before after,
        recons = before ++ latest :: after /\
        (forall r, r ∈ before ->
           String.leb (started_key latest) (started_key r) = false) /\
        (forall r, r ∈ after ->
           String.leb (started_key r) (started_key latest) = true)
  end.
Proof.
  induction recons as [|a l IH]; [reflexivity|].
  pose proof (sort_started_desc_head l) as Hhead.
  cbn [sort_started_desc foldr]. fold (sort_started_desc l).
  destruct (sort_started_desc l) as [|x rest].
  - subst l. cbn. exists [], []. split; [reflexivity|].
    split; intros r Hr; apply elem_of_nil in Hr; destruct Hr.
  - destruct Hhead as [Hx Hmax]. destruct IH as (before & after & Hl & Hb & Ha).
    cbn [insert_desc].
    destruct (String.leb (started_key x) (started_key a)) eqn:Hle.
    + exists [], l. split; [reflexivity|]. split.
      * intros r Hr. apply elem_of_nil in Hr. destruct Hr.
      * intros r Hr. eapply leb_trans; [apply Hmax, Hr | exact Hle].
    + exists (a :: before), after. split; [rewrite Hl; reflexivity|]. split.
      * intros r Hr. apply elem_of_cons in Hr as [->|Hr]; [exact Hle | auto].
      * exact Ha.
Qed.

Lemma find_latest_recon_run (s s1 : State) (listing : option (list Recon)) :
  api_get "/recon" None s = (Return (ReconListing listing), s1) ->
  find_latest_recon s =
    match filter (fun r => recon_mapping r = Some MAPPING_NAME) (default [] listing) with
    | [] => (Raise (SystemExit 1), add_line PNoRecon s1)
    | m :: ms =>
        match sort_started_desc (m :: ms) with
        | latest :: _ => (Return latest, s1)
        | [] => (Raise IndexError, s1)
        end
    end.
Proof.
  intros Hget. unfold find_latest_recon, bind at 1. rewrite Hget.
  unfold bind at 1. unfold get_reconciliations.
  replace (match listing with Some l => ret l | None => ret [] end s1)
    with (@Return (list Recon) (default [] listing), s1) by (destruct listing; reflexivity).
  destruct (filter _ (default [] listing)) as [|m ms]; [reflexivity|].
  destruct (sort_started_desc (m :: ms)); reflexivity.
Qed.

Lemma leb_empty (a : string) : String.leb a EmptyString = true -> a = EmptyString.
Proof. destruct a; [reflexivity | discriminate]. Qed.

(** X11: among the runs of the mapping that share the greatest start
    timestamp, [find_latest_recon] returns the one the tenant lists first:
    every run of the mapping listed before the returned one started
    strictly earlier, every one listed after it started no later. *)
Theorem latest_recon_is_first_listed_among_ties (s s1 : State)
    (listing : option (list Recon)) (latest : Recon) :
  api_get "/recon" None s = (Return (ReconListing listing), s1) ->
  (find_latest_recon s).1 = Return latest ->
  exists before after,
    filter (fun r => recon_mapping r = Some MAPPING_NAME) (default [] listing)
      = before ++ latest :: after /\
    (forall r, r ∈ before ->
       String.leb (started_key latest) (started_key r) = false) /\
    (forall r, r ∈ after ->
       String.leb (started_key r) (started_key latest) = true).
Proof.
  intros Hget Hret. rewrite (find_latest_recon_run s s1 listing Hget) in Hret.
  pose proof (sort_started_desc_first
                (filter (fun r => recon_mapping r = Some MAPPING_NAME) (default [] listing)))
    as Hfirst.
  destruct (filter _ (default [] listing)) as [|m ms]; [discriminate|].
  destruct (sort_started_desc (m :: ms)) as [|x rest]; [discriminate|].
  injection Hret as ->. exact Hfirst.
Qed.

(** X12: a run without a start timestamp sorts as the empty string,
    below every other: it is returned only when no run of the mapping has a
    non-empty start timestamp. *)
Theorem recon_without_start_is_last_resort (s s1 : State)
    (listing : option (list Recon)) (latest : Recon) :
  api_get "/recon" None s = (Return (ReconListing listing), s1) ->
  (find_latest_recon s).1 = Return latest ->
  recon_started latest = None ->
  forall r, r ∈ default [] listing -> recon_mapping r = Some MAPPING_NAME ->
    recon_started r = None \/ recon_started r = Some EmptyString.
Proof.
  intros Hget Hret Hnone r Hr Hmap.
  rewrite (find_latest_recon_run s s1 listing Hget) in Hret.
  pose proof (sort_started_desc_head
                (filter (fun r => recon_mapping r = Some MAPPING_NAME) (default [] listing)))
    as Hhead.
  assert (Hin : r ∈ filter (fun r => recon_mapping r = Some MAPPING_NAME)
                      (default [] listing)) by (apply list_elem_of_filter; auto).
  destruct (filter _ (default [] listing)) as [|m ms]; [discriminate|].
  destruct (sort_started_desc (m :: ms)) as [|x rest]; [discriminate|].
  injection Hret as ->. destruct Hhead as [_ Hmax].
  specialize (Hmax r Hin). unfold started_key in Hmax at 2. rewrite Hnone in Hmax.
  apply leb_empty in Hmax. unfold started_key in Hmax.
  destruct (recon_started r) as [t|]; [right | left; reflexivity].
  cbn in Hmax. congruence.
Qed.

(** ** The early exits of [main] *)

Lemma main_after_recon (fuel : nat) (s0 s1 : State) (recon : Recon) :
  find_latest_recon (before_recon s0) = (Return recon, s1) ->
  main fuel s0 =
    (if fal_count recon =? 0 then print PNothingToDo
     else
       print PFetching ;;;
       entries <- get_found_already_linked_entries fuel (recon_id recon) ;;
       print (PTotalEntries (length entries)) ;;;
       print PBlank ;;;
       match entries with
       | [] => print PNoEntries
       | _ :: _ =>
           r <- find_and_delete entries ;;
           print_summary entries r.1 r.2
       end) (recon_report recon s1).
Proof.
  intros Hrecon. unfold main.
  do 5 (unfold bind at 1; unfold print at 1).
  unfold bind at 1. do 2 (unfold bind at 1; unfold print at 1).
  unfold bind at 1. fold (before_recon s0). rewrite Hrecon.
  do 5 (unfold bind at 1; unfold print at 1). reflexivity.
Qed.

Lemma fal_count_zero (recon : Recon) :
  (forall n, situationSummary recon ≫= (fun m => m !! "FOUND_ALREADY_LINKED") = Some n ->
             n = 0) ->
  fal_count recon = 0.
Proof.
  unfold fal_count. intros H. destruct (situationSummary recon) as [m|]; cbn in *.
  - destruct (m !! "FOUND_ALREADY_LINKED") as [n|]; cbn; [apply H; reflexivity | reflexivity].
  - rewrite lookup_empty. reflexivity.
Qed.

(** X13: when the run found has no situation summary, or its summary
    has no FOUND_ALREADY_LINKED count, or that count is zero, [main] reports
    that there is nothing to do and returns: no entry is fetched and no link
    queried or deleted, whatever the fuel. *)
Theorem nothing_to_do_without_flagged_count (fuel : nat) (s0 s1 : State) (recon : Recon) :
  find_latest_recon (before_recon s0) = (Return recon, s1) ->
  (forall n, situationSummary recon ≫= (fun m => m !! "FOUND_ALREADY_LINKED") = Some n ->
             n = 0) ->
  main fuel s0 = (Return tt, add_line PNothingToDo (recon_report recon s1)) /\
  trace (main fuel s0).2 = trace s1 /\
  world (main fuel s0).2 = world s1.
Proof.
  intros Hrecon Hcount.
  assert (Hrun : main fuel s0 = (Return tt, add_line PNothingToDo (recon_report recon s1))).
  { rewrite (main_after_recon fuel s0 s1 recon Hrecon), (fal_count_zero recon Hcount).
    reflexivity. }
  rewrite Hrun. auto.
Qed.

(** X14: when the summary counts flagged items but the pages hold no
    entry, [main] prints the hint about persisted associations and returns
    without a summary: no link is queried or deleted. *)
Theorem no_entries_fetched_ends_the_run (fuel : nat) (s0 s1 s2 : State) (recon : Recon) :
  find_latest_recon (before_recon s0) = (Return recon, s1) ->
  fal_count recon <> 0 ->
  get_found_already_linked_entries fuel (recon_id recon)
    (add_line PFetching (recon_report recon s1)) = (Return [], s2) ->
  main fuel s0 =
    (Return tt, add_line PNoEntries (add_line PBlank (add_line (PTotalEntries 0) s2))) /\
  trace (main fuel s0).2 = trace s2.
Proof.
  intros Hrecon Hcount Hfetch.
  assert (Hrun : main fuel s0 =
            (Return tt,
             add_line PNoEntries (add_line PBlank (add_line (PTotalEntries 0) s2)))).
  { rewrite (main_after_recon fuel s0 s1 recon Hrecon).
    replace (fal_count recon =? 0) with false by (symmetry; apply Z.eqb_neq; exact Hcount).
    unfold bind at 1, print at 1. unfold bind at 1. rewrite Hfetch. reflexivity. }
  rewrite Hrun. auto.
Qed.

(** ** Failures that end the run *)

Lemma for_in_app {A S} (l1 l2 : list A) (body : A -> S -> M S) (acc : S) (s : State) :
  for_in (l1 ++ l2) body acc s
    = (acc' <- for_in l1 body acc ;; for_in l2 body acc') s.
Proof.
  revert acc s. induction l1 as [|x l1 IH]; intros acc s; cbn [for_in app].
  - reflexivity.
  - unfold bind. destruct (body x acc s) as [[acc'|e|] s1]; [|reflexivity|reflexivity].
    rewrite IH. reflexivity.
Qed.

(** X15: an exception of a link query is not caught: the loop over the
    entries ends with it at once, in the dry run as in a live one; the
    entries after it are not looked at and the counters gathered so far are
    lost. *)
Theorem failed_lookup_aborts_the_loop (dry_run : bool) (total i : nat) (e : ReconEntry)
    (done rest : list (nat * ReconEntry)) (c c1 : Counters) (s s1 s2 : State) (ex : exn) :
  for_in done (handle_entry dry_run total) c s = (Return c1, s1) ->
  find_link (sourceObjectId e) (targetObjectId e)
    (add_line (PEntry i total (sourceObjectId e) (targetObjectId e)) s1) = (Raise ex, s2) ->
  for_in (done ++ (i, e) :: rest) (handle_entry dry_run total) c s = (Raise ex, s2).
Proof.
  intros Hdone Hfind. rewrite for_in_app. unfold bind at 1. rewrite Hdone.
  cbn [for_in]. unfold bind at 1, handle_entry. cbn [fst snd].
  unfold bind at 1, print. unfold bind at 1. rewrite Hfind. reflexivity.
Qed.

(** X16: a delete the tenant answers with a success status but without
    a JSON body (a 204 No Content, say) makes [resp.json()] raise inside the
    [try]: the link is counted as failed and reported with a decode error,
    although the tenant accepted the delete. *)
Theorem accepted_delete_without_body_counts_as_failed (link : LinkRecord) (c : Counters)
    (s s0 : State) (tok : string) (resp : Response) (w : World) :
  let rq := {| rq_method := DELETE;
               rq_url := BASE_URL +:+ "/repo/link/" +:+ link_id link;
               rq_headers := request_headers tok (Some (link_rev link));
               rq_params := None |} in
  token (add_line (PFoundLink (link_id link) (firstId link) (secondId link)) s)
    = (Return tok, s0) ->
  send rq (world s0) = (Some resp, w) ->
  200 <= status_code resp < 300 ->
  json resp = None ->
  handle_link false link c s =
    (Return (bump_failed c),
     add_line (PErrorDeleting (link_id link) JSONDecodeError)
       (record (Sent rq (Some resp)) w s0)).
Proof.
  intros rq Htok Hsend Hstatus Hjson. rewrite handle_link_live.
  assert (Hrun : api_delete ("/repo/link/" +:+ link_id link) (link_rev link)
                   (add_line (PFoundLink (link_id link) (firstId link) (secondId link)) s)
                 = (Raise JSONDecodeError, record (Sent rq (Some resp)) w s0)).
  { unfold api_delete, _do_request. change (seq 0 2) with [0; 1]%nat.
    rewrite do_request_loop_cons. unfold bind at 1. rewrite Htok.
    unfold bind at 1, request. fold rq. rewrite Hsend.
    replace (status_code resp =? 401) with false by (symmetry; apply Z.eqb_neq; lia).
    cbn [andb]. unfold bind, raise_for_status, resp_json, is_error_status.
    replace (400 <=? status_code resp) with false by (symmetry; apply Z.leb_gt; lia).
    cbn. rewrite Hjson. reflexivity. }
  rewrite Hrun. reflexivity.
Qed.

(** ** The counters and the log *)

Lemma prints_only_ret {A} p (a : A) : prints_only p (ret a).
Proof. apply spec_ret. constructor. Qed.

Lemma prints_only_raise {A} p (e : exn) : prints_only p (@raise _ A e).
Proof. apply spec_raise. constructor. Qed.

Lemma prints_only_print p (l : Line) : p l = true -> prints_only p (print l).
Proof. intros Hl. apply spec_print. repeat constructor. exact Hl. Qed.

Lemma prints_only_bind {A B} p (m : M A) (k : A -> M B) :
  prints_only p m -> (forall a, prints_only p (k a)) -> prints_only p (bind m k).
Proof.
  intros Hm Hk.
  apply (spec_bind m k (fun _ _ ls => Forall (fun l => p l = true) ls)
           (fun _ _ _ ls => Forall (fun l => p l = true) ls)); auto.
  intros a evs1 ls1 r evs2 ls2 H1 H2. apply Forall_app; auto.
Qed.

Lemma prints_only_for_in {A S} p (body : A -> S -> M S) :
  (forall x acc, prints_only p (body x acc)) ->
  forall l acc, prints_only p (for_in l body acc).
Proof.
  intros Hbody l. induction l as [|x l IH]; intros acc; cbn [for_in].
  - apply prints_only_ret.
  - apply prints_only_bind; auto.
Qed.

Lemma refresh_prints : prints_only is_token_line refresh.
Proof.
  intros s. unfold refresh.
  destruct (post_token (world s)) as [[resp|] w]; cbn.
  2: { exists [Refreshed None], []. rewrite app_nil_r. repeat split. constructor. }
  unfold bind, raise_for_status.
  destruct (is_error_status (tk_status_code resp)); cbn.
  { exists [Refreshed (Some resp)], []. rewrite app_nil_r. repeat split. constructor. }
  destruct (tk_json resp) as [data|]; cbn.
  2: { exists [Refreshed (Some resp)], []. rewrite app_nil_r. repeat split. constructor. }
  destruct (access_token data) as [t|]; cbn.
  2: { exists [Refreshed (Some resp)], []. rewrite app_nil_r. repeat split. constructor. }
  exists [Refreshed (Some resp)], [PTokenAcquired (expires_in data)].
  repeat split. repeat constructor.
Qed.

Lemma token_prints : prints_only is_token_line token.
Proof.
  intros s. unfold token. destruct (truthy (_token s)).
  - exists [], []. cbn. rewrite !app_nil_r. repeat split. constructor.
  - destruct (refresh_prints s) as (evs & ls & Ht & Ho & H).
    unfold bind. destruct (refresh s) as [[[]|e|] s1]; cbn in *; exists evs, ls; auto.
Qed.

Lemma request_prints (rq : Request) : prints_only is_token_line (request rq).
Proof.
  intros s. unfold request. destruct (send rq (world s)) as [[resp|] w]; cbn.
  - exists [Sent rq (Some resp)], []. rewrite app_nil_r. repeat split. constructor.
  - exists [Sent rq None], []. rewrite app_nil_r. repeat split. constructor.
Qed.

Lemma do_request_prints method path params rev :
  prints_only is_token_line (_do_request method path params rev).
Proof.
  unfold _do_request. generalize (seq 0 2). intros attempts.
  induction attempts as [|attempt rest IH].
  - apply prints_only_ret.
  - rewrite do_request_loop_cons.
    apply prints_only_bind; [apply token_prints | intros tok].
    apply prints_only_bind; [apply request_prints | intros resp].
    destruct ((status_code resp =? 401) && (attempt =? 0)%nat).
    + apply prints_only_bind; [apply prints_only_print; reflexivity | intros _].
      apply prints_only_bind; [apply refresh_prints | intros _]. exact IH.
    + apply prints_only_bind; [|intros _].
      * unfold raise_for_status.
        destruct (is_error_status _); [apply prints_only_raise | apply prints_only_ret].
      * unfold resp_json.
        destruct (json resp); [apply prints_only_ret | apply prints_only_raise].
Qed.

Lemma find_link_prints source_id target_id :
  prints_only is_token_line (find_link source_id target_id).
Proof.
  unfold find_link. apply prints_only_bind; [|intros candidates; apply prints_only_ret].
  apply prints_only_for_in. intros search_id acc. unfold query_id.
  apply prints_only_for_in. intros field acc'. unfold query_field.
  apply prints_only_bind; [apply do_request_prints | intros data].
  apply prints_only_bind; [|intros found; apply prints_only_ret].
  unfold get_result_links.
  destruct data as [l|result next|[l|]| |];
    first [apply prints_only_ret | apply prints_only_raise].
Qed.

Lemma count_lines_app p (a b : list Line) :
  count_lines p (a ++ b) = (count_lines p a + count_lines p b)%nat.
Proof. unfold count_lines. rewrite List.filter_app, length_app. reflexivity. Qed.

Lemma count_lines_token p (ls : list Line) :
  (forall l, is_token_line l = true -> p l = false) ->
  Forall (fun l => is_token_line l = true) ls -> count_lines p ls = 0%nat.
Proof.
  intros Hp. induction 1 as [|l ls Hl _ IH]; [reflexivity|].
  unfold count_lines in *. cbn. rewrite (Hp l Hl). exact IH.
Qed.

Lemma tallies_refl (c : Counters) : tallies c c [].
Proof. unfold tallies, count_lines. cbn. repeat split; lia. Qed.

Lemma tallies_trans (c c1 c2 : Counters) (ls1 ls2 : list Line) :
  tallies c c1 ls1 -> tallies c1 c2 ls2 -> tallies c c2 (ls1 ++ ls2).
Proof.
  unfold tallies. intros (Hd1 & Hf1 & Hn1 & Hl1) (Hd2 & Hf2 & Hn2 & Hl2).
  rewrite !count_lines_app. repeat split; lia.
Qed.

(** Token lines count for nothing in the tally. *)
Lemma token_lines_uncounted (tok : list Line) :
  Forall (fun l => is_token_line l = true) tok ->
  count_lines is_deleted_line tok = 0%nat /\
  count_lines is_error_line tok = 0%nat /\
  count_lines is_warning_line tok = 0%nat /\
  count_lines is_found_line tok = 0%nat /\
  count_lines is_would_delete_line tok = 0%nat.
Proof.
  intros Htok.
  assert (Hz : forall p, (forall l, is_token_line l = true -> p l = false) ->
                 count_lines p tok = 0%nat)
    by (intros p Hp; apply (count_lines_token p tok Hp Htok)).
  repeat split; apply Hz; intros []; easy.
Qed.

Lemma tallied_for_in {A} (body : A -> Counters -> M Counters) :
  (forall x c, spec (body x c) (tallied c)) ->
  forall l c, spec (for_in l body c) (tallied c).
Proof.
  intros Hbody l. induction l as [|x l IH]; intros c; cbn [for_in].
  - apply spec_ret. apply tallies_refl.
  - apply (spec_bind _ _ (tallied c) (fun c1 => tallied c1)).
    + apply Hbody.
    + intros c1. apply IH.
    + intros c1 evs1 ls1 r evs2 ls2 H1 H2. destruct r; cbn in *; auto.
      eapply tallies_trans; eauto.
    + intros e evs ls _. exact I.
    + intros evs ls _. exact I.
Qed.

Lemma count_lines_cons p (l : Line) (ls : list Line) :
  count_lines p (l :: ls) = ((if p l then 1 else 0) + count_lines p ls)%nat.
Proof. unfold count_lines. cbn. destruct (p l); reflexivity. Qed.

Lemma count_lines_nil p : count_lines p [] = 0%nat.
Proof. reflexivity. Qed.

Local Ltac tally :=
  rewrite ?count_lines_cons, ?count_lines_app, ?count_lines_cons, ?count_lines_nil;
  cbn; lia.

Lemma handle_link_tallied dry_run (link : LinkRecord) (c : Counters) :
  spec (handle_link dry_run link c) (tallied c).
Proof.
  intros s. destruct dry_run.
  - exists [], [PFoundLink (link_id link) (firstId link) (secondId link);
                PWouldDelete (link_id link)].
    cbn. rewrite app_nil_r, <- app_assoc. repeat split; tally.
  - rewrite handle_link_live.
    destruct (do_request_prints DELETE ("/repo/link/" +:+ link_id link) None
                (Some (link_rev link))
                (add_line (PFoundLink (link_id link) (firstId link) (secondId link)) s))
      as (evs & tok & Ht & Ho & Htok).
    destruct (token_lines_uncounted tok Htok) as (H1 & H2 & H3 & H4 & H5).
    unfold api_delete.
    destruct (_do_request DELETE _ None _ _) as [[b|e|] s1]; cbn [fst snd] in *;
      cbn [add_line stdout trace] in Ht, Ho.
    + exists evs, ([PFoundLink (link_id link) (firstId link) (secondId link)]
                   ++ tok ++ [PDeleted (link_id link)]).
      split; [exact Ht|]. split; [cbn; rewrite Ho, <- !app_assoc; reflexivity|].
      unfold tallied, tallies.
      repeat split; rewrite ?count_lines_cons, ?count_lines_app, ?H1, ?H2, ?H3, ?H4, ?H5;
        tally.
    + exists evs, ([PFoundLink (link_id link) (firstId link) (secondId link)]
                   ++ tok ++ [PErrorDeleting (link_id link) e]).
      split; [exact Ht|]. split; [cbn; rewrite Ho, <- !app_assoc; reflexivity|].
      unfold tallied, tallies.
      repeat split; rewrite ?count_lines_cons, ?count_lines_app, ?H1, ?H2, ?H3, ?H4, ?H5;
        tally.
    + exists evs, (PFoundLink (link_id link) (firstId link) (secondId link) :: tok).
      split; [exact Ht|]. split; [rewrite Ho, <- !app_assoc; reflexivity | exact I].
Qed.

Lemma handle_entry_tallied dry_run total ie (c : Counters) :
  spec (handle_entry dry_run total ie c) (tallied c).
Proof.
  unfold handle_entry.
  apply (spec_bind _ _ (fun _ _ ls => ls = [progress_line total ie])
           (fun _ r evs ls => tallied c r evs ls)).
  - apply spec_print. reflexivity.
  - intros _.
    apply (spec_bind _ _ (fun _ _ ls => Forall (fun l => is_token_line l = true) ls)
             (fun _ r evs ls => tallied c r evs ls)).
    + apply find_link_prints.
    + intros links. destruct links as [|l links].
      * intros s. exists [], [PNoLink]. cbn [fst snd print bind ret].
        split; [cbn; rewrite app_nil_r; reflexivity|]. split; [reflexivity|].
        unfold tallied, tallies. cbn [deleted failed not_found]. repeat split; tally.
      * apply (tallied_for_in (handle_link dry_run) (handle_link_tallied dry_run)).
    + intros links evs1 tok r evs2 ls2 Htok H. destruct r as [c'| |]; [|exact I|exact I].
      unfold tallied in *.
      destruct (token_lines_uncounted tok Htok) as (H1 & H2 & H3 & H4 & H5).
      destruct H as (Hd & Hf & Hn & Hl).
      unfold tallies. rewrite !count_lines_app, H1, H2, H3, H4, H5.
      repeat split; lia.
    + intros e evs ls _. exact I.
    + intros evs ls _. exact I.
  - intros [] evs1 ls1 r evs2 ls2 -> H. destruct r as [c'| |]; [|exact I|exact I].
    unfold tallied in *. destruct H as (Hd & Hf & Hn & Hl).
    unfold tallies, progress_line. rewrite !count_lines_app, !count_lines_cons.
    cbn. repeat split; lia.
  - intros e evs ls _. exact I.
  - intros evs ls _. exact I.
Qed.

(** X17: when the loop over the entries completes, in either mode, its
    counters agree with what it printed: [deleted] grew by the number of
    DELETED lines, [failed] by the number of ERROR lines, [not_found] by the
    number of WARNING lines, and every "Found link" line is matched by one
    DELETED, ERROR or dry-run line. *)
Theorem counters_agree_with_the_log (dry_run : bool) (total : nat)
    (ies : list (nat * ReconEntry)) (c c' : Counters) (s s' : State) :
  for_in ies (handle_entry dry_run total) c s = (Return c', s') ->
  exists ls, stdout s' = stdout s ++ ls /\ tallies c c' ls.
Proof.
  intros Hrun.
  destruct (tallied_for_in (handle_entry dry_run total)
              (handle_entry_tallied dry_run total) ies c s) as (evs & ls & _ & Ho & H).
  rewrite Hrun in Ho, H. exists ls. auto.
Qed.

(** ** Pagination without an end *)

Lemma fetch_loop_never_stops recon_id :
  (forall cookie (s : State), exists batch next s1,
     api_get ("/recon/assoc/" +:+ recon_id +:+ "/entry") (Some (page_params cookie)) s
       = (Return (EntryPage (Some batch) (Some next)), s1) /\
     batch <> [] /\ next <> EmptyString) ->
  forall fuel entries cookie page (s : State),
    (fetch_loop fuel recon_id entries cookie page s).1 = OutOfFuel /\
    exists evs,
      trace (fetch_loop fuel recon_id entries cookie page s).2 = trace s ++ evs /\
      (fuel <= count_sent evs)%nat.
Proof.
  intros Hmore. induction fuel as [|fuel IH]; intros entries cookie page s.
  - split; [reflexivity|]. exists []. cbn. rewrite app_nil_r. split; [reflexivity | lia].
  - destruct (Hmore cookie s) as (batch & next & s1 & Hget & Hbatch & Hnext).
    destruct (api_get_spec ("/recon/assoc/" +:+ recon_id +:+ "/entry")
                (Some (page_params cookie)) s) as (evs1 & ls1 & Ht1 & _ & _ & HD).
    rewrite Hget in Ht1, HD. cbn in Ht1, HD. apply answered_counts in HD.
    assert (Hstep : fetch_loop (S fuel) recon_id entries cookie page s =
              fetch_loop fuel recon_id (entries ++ batch) (Some next) (S page)
                (add_line (PFetchedPage (S page) (length batch)) s1)).
    { cbn [fetch_loop]. unfold bind at 1. rewrite Hget.
      unfold bind at 1. cbn [get_result_entries ret].
      unfold bind at 1, print. unfold bind at 1. cbn [get_pagedResultsCookie ret].
      replace (truthy (Some next)) with true
        by (cbn; destruct (String.eqb_spec next EmptyString); [contradiction | reflexivity]).
      replace (length batch =? 0)%nat with false
        by (destruct batch; [contradiction | reflexivity]).
      reflexivity. }
    rewrite Hstep.
    destruct (IH (entries ++ batch) (Some next) (S page)
                (add_line (PFetchedPage (S page) (length batch)) s1))
      as (Hout & evs2 & Ht2 & Hle).
    split; [exact Hout|]. exists (evs1 ++ evs2).
    rewrite Ht2. cbn [add_line trace]. rewrite Ht1, app_assoc, count_sent_app.
    split; [reflexivity | lia].
Qed.

(** X18: the page loop has no limit of its own: against a tenant that
    answers every page request with a non-empty page and a continuation
    token, [get_found_already_linked_entries] does not return within any
    number of pages: with fuel for [n] pages it has sent at least [n]
    requests and is still iterating. *)
Theorem pagination_has_no_page_limit recon_id (fuel : nat) (s : State) :
  (forall cookie (s0 : State), exists batch next s1,
     api_get ("/recon/assoc/" +:+ recon_id +:+ "/entry") (Some (page_params cookie)) s0
       = (Return (EntryPage (Some batch) (Some next)), s1) /\
     batch <> [] /\ next <> EmptyString) ->
  (get_found_already_linked_entries fuel recon_id s).1 = OutOfFuel /\
  exists evs,
    trace (get_found_already_linked_entries fuel recon_id s).2 = trace s ++ evs /\
    (fuel <= count_sent evs)%nat.
Proof.
  intros Hmore. apply (fetch_loop_never_stops recon_id Hmore).
Qed.

(** ** The entries selected outside of sampling *)

(** X19: with a negative sample size, and with a sample size that is at
    least the number of fetched entries, the whole list of fetched entries
    is selected; a negative sample size announces nothing and deletes for
    real.  A completed step 4 has then printed the progress line of every
    fetched entry. *)
Theorem whole_list_selected_outside_sampling (entries : list ReconEntry) (s : State) :
  SAMPLE_SIZE < 0 \/ Z.of_nat (length entries) <= SAMPLE_SIZE ->
  (select_entries entries s).1 = Return entries /\
  (SAMPLE_SIZE < 0 ->
     select_entries entries s = (Return entries, s) /\ (SAMPLE_SIZE =? 0) = false) /\
  (forall to_process c s',
     find_and_delete entries s = (Return (to_process, c), s') ->
     to_process = entries /\
     exists ls,
       stdout s' = stdout s ++ ls /\
       List.filter is_progress ls
         = map (progress_line (length entries)) (enumerate 1 entries)).
Proof.
  intros Hmode.
  assert (Hsel : (select_entries entries s).1 = Return entries).
  { unfold select_entries. destruct (0 <? SAMPLE_SIZE) eqn:Hpos.
    - cbn. rewrite take_ge; [reflexivity|]. apply Z.ltb_lt in Hpos. lia.
    - destruct (SAMPLE_SIZE =? 0); reflexivity. }
  split; [exact Hsel|]. split.
  - intros Hneg. unfold select_entries.
    replace (0 <? SAMPLE_SIZE) with false by (symmetry; apply Z.ltb_ge; lia).
    replace (SAMPLE_SIZE =? 0) with false by (symmetry; apply Z.eqb_neq; lia).
    split; reflexivity.
  - intros to_process c s' Hrun.
    assert (to_process = entries) as ->.
    { unfold find_and_delete in Hrun. unfold bind at 1 in Hrun.
      destruct (select_entries entries s) as [[tp|e|] s1]; cbn in Hsel;
        try discriminate.
      injection Hsel as ->.
      unfold bind at 1 in Hrun. cbn [print] in Hrun. unfold bind at 1 in Hrun.
      destruct (for_in _ _ _ _) as [[c1|e|] s2]; unfold ret in Hrun; congruence. }
    split; [reflexivity|]. eapply find_and_delete_progress, Hrun.
Qed.

End Coverage.

(** * The theorems at concrete runs *)

Module Witness.
Import Run.

(** The end-to-end scenarios: three entries over two pages, one link each. *)
Example scenario_all_deleted :
  let r := @main live 10 (@start live None (full_run (ok Document))) in
  r.1 = Return tt /\
  List.filter is_counter (@stdout live r.2)
    = [PSummaryDeleted 3; PSummaryNotFound 0; PSummaryFailed 0].
Proof. vm_compute. split; reflexivity. Qed.

(** A delete rejected for a stale revision (412) is counted, and the run
    goes on to the summary. *)
Example scenario_one_delete_fails :
  let r := @main live 10 (@start live None (full_run (status 412))) in
  r.1 = Return tt /\
  List.filter is_counter (@stdout live r.2)
    = [PSummaryDeleted 2; PSummaryNotFound 0; PSummaryFailed 1] /\
  PErrorDeleting "l-2" (HTTPError 412) ∈ @stdout live r.2.
Proof.
  vm_compute. split; [reflexivity|]. split; [reflexivity|].
  apply list_elem_of_In. vm_compute. tauto.
Qed.

(** The link of another mapping on the same user is never addressed. *)
Example scenario_other_mapping_untouched :
  let r := @main live 10 (@start live None (full_run (ok Document))) in
  map (fun ev => match ev with Sent rq _ => rq_url rq | Refreshed _ => EmptyString end)
      (List.filter is_delete (@trace live r.2))
    = ["https://idm.example.com/openidm/repo/link/l-1";
       "https://idm.example.com/openidm/repo/link/l-2";
       "https://idm.example.com/openidm/repo/link/l-3"].
Proof. vm_compute. reflexivity. Qed.

(** The dry run of the same tenant: nothing deleted, every link listed. *)
Example scenario_dry_run :
  let r := @main dry 10 (@start dry None dry_script) in
  r.1 = Return tt /\
  List.filter is_delete (@trace dry r.2) = [] /\
  List.filter is_counter (@stdout dry r.2)
    = [PSummaryDeleted 0; PSummaryNotFound 0; PSummaryFailed 0].
Proof. vm_compute. repeat split; reflexivity. Qed.

(** C1 at [alice], who also has a link of another mapping: only the link of
    the configured mapping is resolved. *)
Lemma only_matching_links_deleted_witness :
  (@find_link live (Some "u-alice") (Some "ldap-alice") alice_query).1
    = Return [alice_link] /\
  forall l, l ∈ [alice_link] -> linkType l = mapping.
Proof.
  split; [reflexivity|].
  exact (proj1 (@only_matching_links_deleted live)
           (Some "u-alice") (Some "ldap-alice") alice_query [alice_link] eq_refl).
Defined.

(** C9 at a delete the tenant rejects with status 412. *)
Lemma failed_delete_counted_and_skipped_witness :
  (@api_delete live "/repo/link/l-2" "0"
     (add_line (PFoundLink "l-2" "ldap-bob" "u-bob") stale)).1
    = Raise (HTTPError 412) /\
  (@for_in live _ _ [bob_link] (handle_link false) no_counts stale).1
    = Return (bump_failed no_counts).
Proof.
  split; [reflexivity|].
  rewrite (proj1 (@failed_delete_counted_and_skipped live bob_link [] no_counts stale)
             (HTTPError 412) eq_refl).
  reflexivity.
Defined.

(** C5 at a token the tenant rejects twice: one refresh, one retry, then
    the error. *)
Lemma do_request_retries_once_witness :
  @token live twice_rejected = (Return "token-0", twice_rejected) /\
  (@_do_request live GET "/recon" None None twice_rejected).1 = Raise (HTTPError 401).
Proof.
  split; [reflexivity|].
  destruct (@do_request_retries_once live GET "/recon" None None
              twice_rejected twice_rejected "token-0" rejected
              ([Some rejected], [grant "token-1"]) eq_refl eq_refl) as [_ H].
  destruct (H eq_refl
              {| tk_status_code := 200;
                 tk_json := Some {| access_token := Some "token-1";
                                    expires_in := Some 899 |} |}
              ([Some rejected], [])
              {| access_token := Some "token-1"; expires_in := Some 899 |}
              "token-1" eq_refl eq_refl eq_refl eq_refl ltac:(discriminate)
              (Some rejected) ([], []) eq_refl) as (_ & _ & H3).
  exact (H3 rejected eq_refl eq_refl).
Defined.

(** C5 as stated fails: a reply with status 300, outside the 2xx range, and
    a JSON body is returned to the caller without an error. *)
Lemma non_success_status_not_raised :
  let r := @_do_request live GET "/recon" None None multiple_choices in
  @trace live r.2 = [Sent (recon_request "token-0") (status 300)] /\
  ~ (200 <= 300 < 300) /\
  r.1 = Return Document.
Proof. split; [reflexivity|]. split; [lia | reflexivity]. Qed.

(** C6 at a listing with two runs of the mapping and a later run of another
    mapping: the April run is the latest. *)
Lemma find_latest_recon_latest_witness :
  @api_get live "/recon" None listed
    = (Return (ReconListing listing_body), (@api_get live "/recon" None listed).2) /\
  exists latest,
    @find_latest_recon live listed
      = (Return latest, (@api_get live "/recon" None listed).2) /\
    recon_mapping latest = mapping.
Proof.
  split; [reflexivity|].
  destruct (@find_latest_recon_latest live listed
              (@api_get live "/recon" None listed).2 listing_body eq_refl) as [_ H].
  destruct H as (latest & H1 & _ & H3 & _); [discriminate|].
  exists latest. split; [exact H1 | exact H3].
Defined.

(** C7 at three scripted pages: the second has no continuation token, so
    the third is never requested. *)
Lemma fetch_stops_at_first_final_page_witness :
  @paged live "recon-2" None 0 paging [[alice; bob]; [carol]]
    (@get_found_already_linked_entries live 2 "recon-2" paging).2 /\
  @get_found_already_linked_entries live 5 "recon-2" paging
    = (Return [alice; bob; carol],
       (@get_found_already_linked_entries live 2 "recon-2" paging).2).
Proof.
  assert (Hp : @paged live "recon-2" None 0 paging [[alice; bob]; [carol]]
                 (@get_found_already_linked_entries live 2 "recon-2" paging).2).
  { eapply (@paged_more live "recon-2" None 0%nat paging _
              (Some [alice; bob]) (Some "cookie-1") [[carol]]);
      [reflexivity | reflexivity | discriminate |].
    eapply (@paged_last live "recon-2" (Some "cookie-1") 1%nat _ _ (Some [carol]) None);
      [reflexivity | left; reflexivity]. }
  split; [exact Hp|].
  destruct (@fetch_stops_at_first_final_page live "recon-2" paging _ _ Hp) as [H _].
  apply (H 5%nat). cbn. lia.
Defined.

(** C8 at [bob], who has a source id only and whose link holds that id as
    its second endpoint. *)
Lemma single_id_searched_in_both_fields_witness :
  "u-bob" <> EmptyString /\
  @find_link live (Some "u-bob") None bob_query
    = (Return [bob_link], (@find_link live (Some "u-bob") None bob_query).2).
Proof.
  split; [discriminate|].
  destruct (@single_id_searched_in_both_fields live (Some "u-bob") None "u-bob"
              bob_query
              (@api_get live "/repo/link" (Some (link_query "firstId" "u-bob")) bob_query).2
              (@find_link live (Some "u-bob") None bob_query).2
              (Some []) (Some [bob_link])
              ltac:(discriminate) (or_introl (conj eq_refl eq_refl)) eq_refl eq_refl)
    as (_ & H & _).
  exact H.
Defined.

(** C10 at an entry with no source id and an empty target id. *)
Lemma entry_without_ids_not_found_witness :
  truthy (sourceObjectId nobody) = false /\
  truthy (targetObjectId nobody) = false /\
  @find_link live None (Some EmptyString) bob_query = (Return [], bob_query).
Proof.
  split; [reflexivity|]. split; [reflexivity|].
  exact (proj1 (@entry_without_ids_not_found live false 1 1 nobody [] no_counts
                  bob_query eq_refl eq_refl)).
Defined.

(** C2 at the dry run of the scripted tenant. *)
Lemma dry_run_never_deletes_witness :
  @SAMPLE_SIZE dry = 0 /\
  exists evs,
    @trace dry (@main dry 10 (@start dry None dry_script)).2 = [] ++ evs /\
    @gets_only dry evs.
Proof.
  split; [reflexivity|].
  exact (proj1 (@dry_run_never_deletes dry eq_refl) 10%nat (@start dry None dry_script)).
Defined.

(** C3 as stated fails: in the dry run the loop runs over the one fetched
    entry, querying the link store twice and listing the link found. *)
Lemma dry_run_processes_an_entry :
  @SAMPLE_SIZE dry = 0 /\
  let r := @find_and_delete dry [bob] dry_bob in
  r.1 = Return ([bob], no_counts) /\
  length (@trace dry r.2) = 2%nat /\
  @stdout dry r.2 =
    [PDryRunMode 1; PBlank; PEntry 1 1 (Some "u-bob") None;
     PFoundLink "l-2" "ldap-bob" "u-bob"; PWouldDelete "l-2"].
Proof. split; [reflexivity|]. vm_compute. repeat split; reflexivity. Qed.

(** C3 (amended) at three fetched entries: all three are selected. *)
Lemma dry_run_processes_all_entries_witness :
  @SAMPLE_SIZE dry = 0 /\
  @select_entries dry [alice; bob; carol] dry_bob
    = (Return [alice; bob; carol], add_line (PDryRunMode 3) dry_bob).
Proof.
  split; [reflexivity|].
  exact (proj1 (@dry_run_processes_all_entries dry [alice; bob; carol] dry_bob eq_refl)).
Defined.

(** C4 at a sample of two out of three entries. *)
Lemma sample_processes_first_entries_witness :
  0 < @SAMPLE_SIZE sampled /\
  @select_entries sampled [alice; bob; carol] (@start sampled None ([], []))
    = (Return [alice; bob],
       add_line (PSampleMode 2 3) (@start sampled None ([], []))).
Proof.
  split; [reflexivity|].
  destruct (@sample_processes_first_entries sampled [alice; bob; carol]
              (@start sampled None ([], [])) eq_refl) as (_ & _ & H & _).
  exact H.
Defined.

End Witness.

(** * The further properties at concrete runs *)

Module Covered.
Import Run Cases.

(** A rejected token and a token endpoint that is down: one request, one
    refresh, no retry. *)
Lemma rejected_call_not_retried_when_refresh_fails_witness :
  @token live locked_out = (Return "token-0", locked_out) /\
  refresh_error token_outage = Some (HTTPError 503) /\
  (@_do_request live GET "/recon" None None locked_out).1 = Raise (HTTPError 503) /\
  @count_sent live (@trace live (@_do_request live GET "/recon" None None locked_out).2)
    = 1%nat.
Proof.
  split; [reflexivity|]. split; [reflexivity|].
  destruct (@rejected_call_not_retried_when_refresh_fails live GET "/recon" None None
              locked_out locked_out "token-0" rejected ([], [token_outage])
              (HTTPError 503) eq_refl eq_refl eq_refl eq_refl) as (H & _ & _).
  rewrite H. split; reflexivity.
Defined.

Lemma find_link_returns_distinct_ids_witness :
  (@find_link live (Some "u-alice") (Some "ldap-alice") alice_query).1
    = Return [alice_link] /\
  NoDup (link_id <$> [alice_link]).
Proof.
  split; [reflexivity|].
  exact (proj1 (@find_link_returns_distinct_ids live (Some "u-alice") (Some "ldap-alice")
                  alice_query [alice_link] eq_refl)).
Defined.

(** Two runs of April: the one listed first is returned. *)
Lemma latest_recon_is_first_listed_among_ties_witness :
  (@find_latest_recon live tied).1 = Return run_april /\
  exists before after,
    filter (fun r => recon_mapping r = Some (@MAPPING_NAME live)) (default [] tied_listing)
      = before ++ run_april :: after.
Proof.
  split; [reflexivity|].
  destruct (@latest_recon_is_first_listed_among_ties live tied
              (@api_get live "/recon" None tied).2 tied_listing run_april
              eq_refl eq_refl) as (before & after & H & _).
  exists before, after. exact H.
Defined.

Lemma recon_without_start_is_last_resort_witness :
  (@find_latest_recon live undated).1 = Return run_undated /\
  (recon_started run_blank = None \/ recon_started run_blank = Some EmptyString).
Proof.
  split; [reflexivity|].
  apply (@recon_without_start_is_last_resort live undated
           (@api_get live "/recon" None undated).2 undated_listing run_undated
           eq_refl eq_refl eq_refl run_blank).
  - apply elem_of_cons. right. apply elem_of_cons. left. reflexivity.
  - reflexivity.
Defined.

Lemma nothing_to_do_without_flagged_count_witness :
  (@find_latest_recon live (before_recon without_summary)).1 = Return run_undated /\
  (@main live 0 without_summary).1 = Return tt.
Proof.
  split; [reflexivity|].
  destruct (@nothing_to_do_without_flagged_count live 0 without_summary
              (@find_latest_recon live (before_recon without_summary)).2 run_undated
              eq_refl) as (H & _ & _).
  - intros n Hn. discriminate Hn.
  - rewrite H. reflexivity.
Defined.

Lemma no_entries_fetched_ends_the_run_witness :
  (@find_latest_recon live (before_recon without_entries)).1 = Return run_april /\
  fal_count run_april <> 0 /\
  (@main live 3 without_entries).1 = Return tt.
Proof.
  split; [reflexivity|]. split; [discriminate|].
  destruct (@no_entries_fetched_ends_the_run live 3 without_entries
              (@find_latest_recon live (before_recon without_entries)).2
              (@get_found_already_linked_entries live 3 "recon-2"
                 (add_line PFetching
                    (recon_report run_april
                       (@find_latest_recon live (before_recon without_entries)).2))).2
              run_april eq_refl ltac:(discriminate) eq_refl) as (H & _).
  rewrite H. reflexivity.
Defined.

Lemma failed_lookup_aborts_the_loop_witness :
  (@find_link live (Some "u-bob") None
     (add_line (PEntry 1 2 (Some "u-bob") None) store_down)).1 = Raise (HTTPError 500) /\
  (@for_in live _ _ [(1%nat, bob); (2%nat, alice)] (handle_entry false 2) no_counts
     store_down).1 = Raise (HTTPError 500).
Proof.
  split; [reflexivity|].
  pose proof (@failed_lookup_aborts_the_loop live false 2 1 bob [] [(2%nat, alice)]
                no_counts no_counts store_down store_down
                (@find_link live (Some "u-bob") None
                   (add_line (PEntry 1 2 (Some "u-bob") None) store_down)).2
                (HTTPError 500) eq_refl eq_refl) as H.
  cbn [app] in H. rewrite H. reflexivity.
Defined.

Lemma accepted_delete_without_body_counts_as_failed_witness :
  200 <= status_code no_content < 300 /\
  json no_content = None /\
  (@handle_link live false bob_link no_counts accepting).1
    = Return (bump_failed no_counts).
Proof.
  split; [cbn; lia|]. split; [reflexivity|].
  rewrite (@accepted_delete_without_body_counts_as_failed live bob_link no_counts
             accepting
             (add_line (PFoundLink "l-2" "ldap-bob" "u-bob") accepting)
             "token-0" no_content ([], []) eq_refl eq_refl
             ltac:(cbn; lia) eq_refl).
  reflexivity.
Defined.

Lemma counters_agree_with_the_log_witness :
  let r := @for_in live _ _ (enumerate 1 [alice; bob]) (handle_entry false 2)
             no_counts two_entries in
  r.1 = Return {| deleted := 1; failed := 1; not_found := 0 |} /\
  exists ls,
    @stdout live r.2 = ls /\
    tallies no_counts {| deleted := 1; failed := 1; not_found := 0 |} ls.
Proof.
  split; [reflexivity|].
  destruct (@counters_agree_with_the_log live false 2 (enumerate 1 [alice; bob])
              no_counts {| deleted := 1; failed := 1; not_found := 0 |} two_entries
              (@for_in live _ _ (enumerate 1 [alice; bob]) (handle_entry false 2)
                 no_counts two_entries).2 eq_refl) as (ls & Ho & H).
  exists ls. split; [exact Ho | exact H].
Defined.

Lemma pagination_has_no_page_limit_witness :
  (@get_found_already_linked_entries endless 25 "recon-2" (@start endless None tt)).1
    = OutOfFuel.
Proof.
  apply (@pagination_has_no_page_limit endless "recon-2" 25 (@start endless None tt)).
  intros cookie s0. exists [alice], "cookie-1".
  unfold api_get, _do_request. change (seq 0 2) with [0; 1]%nat.
  rewrite do_request_loop_cons. unfold bind at 1, token.
  destruct (truthy (_token s0)); eexists; (split; [reflexivity|]);
    split; discriminate.
Defined.

Lemma whole_list_selected_outside_sampling_witness :
  @SAMPLE_SIZE live < 0 /\
  @select_entries live [alice; bob; carol] alice_query
    = (Return [alice; bob; carol], alice_query).
Proof.
  split; [reflexivity|].
  destruct (@whole_list_selected_outside_sampling live [alice; bob; carol] alice_query
              (or_introl eq_refl)) as (_ & H & _).
  exact (proj1 (H eq_refl)).
Defined.

End Covered.
